(** * Texas data pipeline: the crawler scripts, embedded and verified

    The development follows the two Node.js scripts of the repository:
    - [texas_data_crawler.js]  (class [CDPBrowser], class [TexasDataCrawler]);
    - the multi-source crawler (class [CDPBrowser], class
      [TexasMultiSourceCrawler], table [TEXAS_DATA_SOURCES]).

    JavaScript values that come out of [JSON.parse] are modelled by the
    inductive type [JS.value]; [undefined] is [None] in [option JS.value].
    Numbers that the scripts count with (correlation ids, view counts,
    string lengths) are integers and are modelled in [Z].  Strings are
    Rocq strings; [toLowerCase] is modelled on the ASCII letters, which is
    where all the keywords of the scripts live. *)

From stdpp Require Import gmap strings list fin_maps.
From Stdlib Require Import ZArith QArith Qround Lqa Ascii String List Lia Bool DecimalString.
Import ListNotations.
Local Open Scope Z_scope.
Set Warnings "-register-all".

(* ===================================================================== *)
(** ** JavaScript values and the few primitives the scripts rely on *)
(* ===================================================================== *)

Module JS.

(** The result of [JSON.parse]. *)
Inductive value : Type :=
| Null
| Bool (b : bool)
| Num (n : Z)
| Str (s : string)
| Arr (items : list value)
| Obj (members : list (string * value)).

(** Exceptions that the modelled code can raise. *)
Inductive exn : Type :=
| SyntaxError          (* JSON.parse on a text that is not JSON *)
| TypeError            (* property access on null; an address that https.get refuses *)
| NetworkError (message : string).

(** Own property of an object literal; a later member with the same key
    overrides an earlier one, as in [JSON.parse]. *)
Definition member (key : string) (members : list (string * value)) : option value :=
  fold_left (fun acc kv => if String.eqb (fst kv) key then Some (snd kv) else acc)
            members None.

(** [v.key] for the keys the scripts read ([id], [result], [value]):
    a [TypeError] on [null], [undefined] on primitives and arrays. *)
Definition prop (v : value) (key : string) : exn + option value :=
  match v with
  | Null => inl TypeError
  | Obj ms => inr (member key ms)
  | _ => inr None
  end.

(** [o?.key]: optional chaining short-circuits on [undefined] and [null]. *)
Definition opt_prop (o : option value) (key : string) : option value :=
  match o with
  | None | Some Null => None
  | Some (Obj ms) => member key ms
  | Some _ => None
  end.

(** ToBoolean. *)
Definition truthy (o : option value) : bool :=
  match o with
  | None | Some Null => false
  | Some (Bool b) => b
  | Some (Num n) => negb (n =? 0)
  | Some (Str s) => negb (String.eqb s EmptyString)
  | Some (Arr _) | Some (Obj _) => true
  end.

(** [a || b] where [b] is a defined value. *)
Definition or_else (a : option value) (b : value) : value :=
  match a with
  | Some v => if truthy a then v else b
  | None => b
  end.

End JS.

(* ===================================================================== *)
(** ** class CDPBrowser (identical in both scripts) *)
(* ===================================================================== *)

Module CDP.
Import JS.

(** The envelope [{id, method, params}] that [send] writes to the socket. *)
Record request : Type := { req_id : Z; req_method : string; req_params : value }.

(** A promise created by [send] is named by its allocation index; its
    cell holds [None] while it is pending and [Some v] once resolved.
    [this.id] is a JavaScript number; it counts the commands of one
    connection and is exact on every integer such a counter can reach
    (below 2^53), so it is modelled in [Z]. *)
Record CDPBrowser : Type := {
  id : Z;                          (* this.id *)
  pending : gmap Z nat;            (* this.pending : id -> resolver of a promise *)
  wire : list request;             (* what ws.send has transmitted, oldest first *)
  promises : list (option value)   (* the promises handed out by send *)
}.

(** [constructor] followed by a successful [connect]. *)
Definition connected : CDPBrowser :=
  {| id := 1; pending := ∅; wire := []; promises := [] |}.

(** Calling the resolver of promise [h]: only a pending promise changes. *)
Definition resolve (ps : list (option value)) (h : nat) (v : value) : list (option value) :=
  match ps !! h with
  | Some None => <[h := Some v]> ps
  | _ => ps
  end.

(** [send(method, params)]: returns the promise and the new state. *)
Definition send (st : CDPBrowser) (method : string) (params : value) : nat * CDPBrowser :=
  let mid := id st in
  let h := length (promises st) in
  (h, {| id := mid + 1;
         pending := <[mid := h]> (pending st);
         wire := wire st ++ [{| req_id := mid; req_method := method; req_params := params |}];
         promises := promises st ++ [None] |}).

(** [this.pending.has(msg.id)]: Map keys are the numbers stored by
    [send]; any other kind of value is not a key. *)
Definition pending_get (st : CDPBrowser) (idv : option value) : option nat :=
  match idv with
  | Some (Num k) => pending st !! k
  | _ => None
  end.

Definition pending_delete (st : CDPBrowser) (idv : option value) : gmap Z nat :=
  match idv with
  | Some (Num k) => delete k (pending st)
  | _ => pending st
  end.

(** [msg.result || msg] *)
Definition payload (msg : value) : value :=
  match prop msg "result" with
  | inr r => or_else r msg
  | inl _ => msg
  end.

(** What happens to one client: calls of [send] and incoming frames. *)
Inductive event : Type :=
| Send (method : string) (params : value)
| Message (data : string).

Section Handler.
(** [JSON.parse]; [None] stands for the [SyntaxError] it throws. *)
Variable JSON_parse : string -> option value.

(** The [onmessage] handler installed by [connect]. *)
Definition onmessage (st : CDPBrowser) (data : string) : exn + CDPBrowser :=
  match JSON_parse data with
  | None => inl SyntaxError
  | Some msg =>
      match prop msg "id" with
      | inl e => inl e
      | inr idv =>
          if truthy idv then
            match pending_get st idv with
            | Some h =>
                inr {| id := id st;
                       pending := pending_delete st idv;
                       wire := wire st;
                       promises := resolve (promises st) h (payload msg) |}
            | None => inr st
            end
          else inr st
      end
  end.

Definition step (st : CDPBrowser) (ev : event) : exn + CDPBrowser :=
  match ev with
  | Send m p => inr (snd (send st m p))
  | Message d => onmessage st d
  end.

(** A run stops at the first exception that leaves a handler: Node
    reports an exception thrown by an event listener as uncaught, which
    ends the process. *)
Fixpoint run (st : CDPBrowser) (evs : list event) : exn + CDPBrowser :=
  match evs with
  | [] => inr st
  | ev :: rest =>
      match step st ev with
      | inl e => inl e
      | inr st' => run st' rest
      end
  end.

End Handler.

(** [evaluate(expression)] first calls [send('Runtime.evaluate', {expression})]. *)
Definition evaluate (st : CDPBrowser) (expression : string) : nat * CDPBrowser :=
  send st "Runtime.evaluate" (Obj [("expression"%string, Str expression)]).

(** ... and, once the promise of [send] is resolved with [result], returns
    [result.result?.value]. *)
Definition evaluate_return (result : value) : exn + option value :=
  match prop result "result" with
  | inl e => inl e
  | inr r => inr (opt_prop r "value")
  end.

(** The state of the promise returned by [evaluate]: [None] while the
    promise of [send] is pending. *)
Definition evaluate_promise (st : CDPBrowser) (h : nat) : option (exn + option value) :=
  match promises st !! h with
  | Some (Some result) => Some (evaluate_return result)
  | _ => None
  end.

End CDP.

(* ===================================================================== *)
(** ** Text: template literals, toLowerCase, includes, join, toFixed *)
(* ===================================================================== *)

Module Text.
Local Open Scope string_scope.

(** [c.toLowerCase()] on one ASCII character. *)
Definition lower_char (c : ascii) : ascii :=
  let n := nat_of_ascii c in
  if ((65 <=? n) && (n <=? 90))%nat then ascii_of_nat (n + 32) else c.

(** [s.toLowerCase()] *)
Fixpoint toLowerCase (s : string) : string :=
  match s with
  | EmptyString => EmptyString
  | String c rest => String (lower_char c) (toLowerCase rest)
  end.

(** [s.startsWith(p)] *)
Fixpoint startsWith (s p : string) {struct p} : bool :=
  match p, s with
  | EmptyString, _ => true
  | String _ _, EmptyString => false
  | String a p', String b s' => Ascii.eqb a b && startsWith s' p'
  end.

(** [text.includes(kw)] *)
Fixpoint includes (text kw : string) : bool :=
  startsWith text kw ||
  match text with
  | EmptyString => false
  | String _ rest => includes rest kw
  end.

(** [list.join(sep)] *)
Definition join (sep : string) (l : list string) : string := String.concat sep l.

(** [`${n}`] for an integer. *)
Definition show_Z (n : Z) : string := NilZero.string_of_int (Z.to_int n).

(** [s.length] *)
Definition length (s : string) : Z := Z.of_nat (String.length s).

End Text.

(* ===================================================================== *)
(** ** Numbers that are not integers: quotients and toFixed *)
(* ===================================================================== *)

Module Number.
Local Open Scope string_scope.

(** The value of [a / b * 100] for integers [a], [b]; the quotient of
    the source is a double, here it is the exact rational. *)
Inductive number : Type :=
| NaN
| Infinity (negative : bool)
| Fin (q : Q).

(** [a / b] on integers. *)
Definition div (a b : Z) : number :=
  if (b =? 0)%Z then
    (if (a =? 0)%Z then NaN else Infinity (a <? 0)%Z)
  else Fin (Qred (inject_Z a / inject_Z b)).

(** [x * k] for an integer [k > 0]. *)
Definition scale (x : number) (k : Z) : number :=
  match x with
  | Fin q => Fin (Qred (q * inject_Z k))
  | other => other
  end.

(** [q.toFixed(1)] for [q >= 0]: the integer [n] with [n / 10] closest
    to [q], the larger one on a tie. *)
Definition tenths (q : Q) : Z := Qfloor (q * inject_Z 10 + (1 # 2)).

Definition toFixed1 (x : number) : string :=
  match x with
  | NaN => "NaN"
  | Infinity false => "Infinity"
  | Infinity true => "-Infinity"
  | Fin q =>
      let n := tenths q in
      Text.show_Z (n / 10) ++ "." ++ Text.show_Z (n mod 10)
  end.

End Number.

(* ===================================================================== *)
(** ** The catalog API and the probes, as the scripts see them *)
(* ===================================================================== *)

Module Net.
Import JS.

(** One object of the listing returned by [/api/views.json]; every field
    but [id] and [name] may be missing. *)
Record item : Type := {
  item_id : string;
  item_name : string;
  item_description : option string;
  item_category : option string;
  item_tags : option (list string);
  item_viewCount : option Z;
  item_downloadCount : option Z;
  item_createdAt : option Z;
  item_rowsUpdatedAt : option Z;
  item_displayType : option string
}.

(** [d.f || ''] and [d.f || []] and [d.f || 0] *)
Definition or_empty (o : option string) : string :=
  match o with
  | Some s => s
  | None => EmptyString
  end.

Definition or_nil (o : option (list string)) : list string :=
  match o with
  | Some l => l
  | None => []
  end.

Definition or_zero (o : option Z) : Z :=
  match o with
  | Some n => n
  | None => 0
  end.

(** The promise returned by [fetchJSON(url)], settled: rejected with the
    transport or parse error, or resolved with the parsed listing. *)
Definition fetched (A : Type) : Type := (exn + A)%type.

(** What an [https.get] request emits first. *)
Inductive http_event : Type :=
| Response (statusCode : Z)
| ErrorEvent (message : string).

(** One call of [https.get(url, callback)].  The call itself throws, and
    no request is made, when the address is not a URL or is a URL of
    another scheme than https; otherwise the request is made and emits its
    events, in order. *)
Inductive get_outcome : Type :=
| Throws (e : exn)
| Emits (events : list http_event).

(** A promise: pending, fulfilled or rejected. *)
Inductive promise (A : Type) : Type :=
| Pending
| Fulfilled (v : A)
| Rejected (e : exn).
Arguments Pending {A}.
Arguments Fulfilled {A} v.
Arguments Rejected {A} e.

End Net.

(* ===================================================================== *)
(** ** The three buckets filled by [filterLegalDatasets] *)
(* ===================================================================== *)

Module Buckets.

Inductive category : Type := Law | News | Attorney.

(** [this.categorized] *)
Record categorized (A : Type) : Type := {
  LAW_VERIFICATION : list A;
  NEWS : list A;
  ATTORNEY_RESOURCE : list A
}.
Arguments LAW_VERIFICATION {A} c.
Arguments NEWS {A} c.
Arguments ATTORNEY_RESOURCE {A} c.

Definition empty {A : Type} : categorized A :=
  {| LAW_VERIFICATION := []; NEWS := []; ATTORNEY_RESOURCE := [] |}.

(** [this.categorized.X.push(ds)] *)
Definition push {A : Type} (c : categorized A) (cat : category) (ds : A) : categorized A :=
  match cat with
  | Law =>
      {| LAW_VERIFICATION := LAW_VERIFICATION c ++ [ds];
         NEWS := NEWS c;
         ATTORNEY_RESOURCE := ATTORNEY_RESOURCE c |}
  | News =>
      {| LAW_VERIFICATION := LAW_VERIFICATION c;
         NEWS := NEWS c ++ [ds];
         ATTORNEY_RESOURCE := ATTORNEY_RESOURCE c |}
  | Attorney =>
      {| LAW_VERIFICATION := LAW_VERIFICATION c;
         NEWS := NEWS c;
         ATTORNEY_RESOURCE := ATTORNEY_RESOURCE c ++ [ds] |}
  end.

(** [legalDatasets.forEach(ds => { if ... push ... })] *)
Definition forEach_push {A : Type} (categorize : A -> category) (legal : list A) : categorized A :=
  fold_left (fun c ds => push c (categorize ds) ds) legal empty.

Definition category_eqb (a b : category) : bool :=
  match a, b with
  | Law, Law | News, News | Attorney, Attorney => true
  | _, _ => false
  end.

(** The bucket of a category. *)
Definition bucket {A : Type} (c : categorized A) (cat : category) : list A :=
  match cat with
  | Law => LAW_VERIFICATION c
  | News => NEWS c
  | Attorney => ATTORNEY_RESOURCE c
  end.

End Buckets.

(* ===================================================================== *)
(** ** Stages of a run and what a run leaves behind *)
(* ===================================================================== *)

Module Pipeline.

(** The numbered steps of the two [run] methods. *)
Inductive stage : Type :=
| Discover        (* discoverDatasetsViaAPI / crawlAllSources *)
| InitBrowser
| Filter          (* filterLegalDatasets *)
| DeepMetadata    (* extractDeepMetadata *)
| Measure         (* measureAPIReachability *)
| Score           (* generateQualityScores *)
| Export.         (* exportToJSON, exportToCSV, exportForLangGraph / exportAll *)

Definition stage_eqb (a b : stage) : bool :=
  match a, b with
  | Discover, Discover | InitBrowser, InitBrowser | Filter, Filter
  | DeepMetadata, DeepMetadata | Measure, Measure | Score, Score
  | Export, Export => true
  | _, _ => false
  end.

End Pipeline.

(* ===================================================================== *)
(** ** texas_data_crawler.js: class TexasDataCrawler *)
(* ===================================================================== *)

Module Single.
Import JS Net Buckets Pipeline.
Local Open Scope string_scope.

(** The object built by [discoverDatasetsViaAPI] for each listing item. *)
Record dataset : Type := {
  id : string;
  name : string;
  description : string;
  category : string;
  tags : list string;
  viewCount : Z;
  downloadCount : Z;
  createdAt : option Z;
  updatedAt : option Z;
  displayType : option string;
  url : string
}.

Record TexasDataCrawler : Type := {
  datasets : list dataset;
  metadata : list dataset;
  legalDatasets : list dataset;
  categorized : Buckets.categorized dataset;
  browser : bool                      (* this.browser is a connected CDPBrowser *)
}.

(** [constructor] *)
Definition new : TexasDataCrawler :=
  {| datasets := []; metadata := []; legalDatasets := [];
     categorized := Buckets.empty; browser := false |}.

(** The arrow function of [data.map] in [discoverDatasetsViaAPI]. *)
Definition of_item (d : item) : dataset :=
  {| id := item_id d;
     name := item_name d;
     description := or_empty (item_description d);
     category := or_empty (item_category d);
     tags := or_nil (item_tags d);
     viewCount := or_zero (item_viewCount d);
     downloadCount := or_zero (item_downloadCount d);
     createdAt := item_createdAt d;
     updatedAt := item_rowsUpdatedAt d;
     displayType := item_displayType d;
     url := "https://data.texas.gov/dataset/" ++ item_id d |}.

Definition legalKeywords : list string :=
  [ "legal"; "law"; "court"; "attorney"; "license"; "permit";
    "regulation"; "statute"; "crime"; "criminal"; "justice";
    "violation"; "penalty"; "fine"; "compliance"; "regulatory";
    "insurance"; "tdi"; "txdps"; "bar"; "lawyer"; "filing";
    "case"; "judge"; "prosecutor"; "defense"; "litigation";
    "tarrant"; "harris"; "dallas"; "travis"; "bexar" ].

(** The text searched by the filter predicate:
    [`${ds.name} ${ds.description} ${ds.category} ${ds.tags?.join(' ')}`.toLowerCase()] *)
Definition filter_text (ds : dataset) : string :=
  Text.toLowerCase
    (name ds ++ " " ++ description ds ++ " " ++ category ds ++ " " ++ Text.join " " (tags ds)).

(** The predicate of [this.datasets.filter]. *)
Definition isLegal (ds : dataset) : bool :=
  existsb (fun kw => Text.includes (filter_text ds) kw) legalKeywords.

(** The text searched by the categorizer:
    [`${ds.name} ${ds.description}`.toLowerCase()] *)
Definition category_text (ds : dataset) : string :=
  Text.toLowerCase (name ds ++ " " ++ description ds).

(** The if / else-if chain of the [forEach] body. *)
Definition categorize (ds : dataset) : Buckets.category :=
  let text := category_text ds in
  if Text.includes text "court" || Text.includes text "case" || Text.includes text "filing" ||
     Text.includes text "criminal" || Text.includes text "prosecution" || Text.includes text "dps" ||
     Text.includes text "crime" || Text.includes text "violation" || Text.includes text "penalty"
  then Law
  else if Text.includes text "news" || Text.includes text "report" || Text.includes text "press" ||
          Text.includes text "publication" || Text.includes text "announcement"
  then News
  else if Text.includes text "attorney" || Text.includes text "lawyer" || Text.includes text "license" ||
          Text.includes text "bar" || Text.includes text "permit" || Text.includes text "compliance"
  then Attorney
  else Law.

Definition filterLegalDatasets (st : TexasDataCrawler) : TexasDataCrawler :=
  let legal := List.filter isLegal (datasets st) in
  {| datasets := datasets st;
     metadata := metadata st;
     legalDatasets := legal;
     categorized := forEach_push categorize legal;
     browser := browser st |}.

(** One element of [scores] in [generateQualityScores]. *)
Record metrics : Type := {
  hasDescription : bool;
  descLength : Z;
  m_viewCount : Z;
  m_downloadCount : Z;
  hasTags : bool
}.

Record score_entry : Type := {
  s_id : string;
  s_name : string;
  qualityScore : Z;
  s_metrics : metrics
}.

(** [ds.description && ds.description.length > n] *)
Definition description_longer (ds : dataset) (n : Z) : bool :=
  negb (String.eqb (description ds) EmptyString) && (n <? Text.length (description ds))%Z.

(** The running variable [score] of the arrow function, before the cap. *)
Definition raw_score (ds : dataset) : Z :=
  let score := 50%Z in
  let score := if description_longer ds 100 then (score + 15)%Z else score in
  let score := if description_longer ds 300 then (score + 10)%Z else score in
  let score := if (100 <? viewCount ds)%Z then (score + 10)%Z else score in
  let score := if (50 <? downloadCount ds)%Z then (score + 10)%Z else score in
  let score := if (0 <? Z.of_nat (List.length (tags ds)))%Z then (score + 5)%Z else score in
  score.

(** [Math.min(100, score)] *)
Definition quality (ds : dataset) : Z := Z.min 100 (raw_score ds).

Definition score_of (ds : dataset) : score_entry :=
  {| s_id := id ds;
     s_name := name ds;
     qualityScore := quality ds;
     s_metrics :=
       {| hasDescription := negb (String.eqb (description ds) EmptyString);
          descLength := Text.length (description ds);
          m_viewCount := viewCount ds;
          m_downloadCount := downloadCount ds;
          hasTags := (0 <? Z.of_nat (List.length (tags ds)))%Z |} |}.

Record quality_report : Type := {
  scores : list score_entry;
  averageScore : Number.number
}.

Definition generateQualityScores (st : TexasDataCrawler) : quality_report :=
  let scores := map score_of (legalDatasets st) in
  {| scores := scores;
     averageScore :=
       Number.div (fold_left (fun a b => (a + qualityScore b)%Z) scores 0%Z)
                  (Z.of_nat (List.length scores)) |}.

(** The object returned by [measureAPIReachability]. *)
Record api_stats : Type := {
  reachable : Z;
  total : Z;
  rate : string
}.

(** [(reachable / total * 100).toFixed(1)] *)
Definition rate_of (reachable total : Z) : string :=
  Number.toFixed1 (Number.scale (Number.div reachable total) 100).

Section World.
(** [fetchJSON] at the listing endpoint and at a resource endpoint (whose
    body is discarded), and the outcome of [initBrowser]. *)
Variable fetchJSON_views : string -> fetched (list item).
Variable fetchJSON_resource : string -> fetched unit.
Variable browser_found : bool.

Definition discoverDatasetsViaAPI (st : TexasDataCrawler) (limit : Z)
  : exn + TexasDataCrawler :=
  let url := "https://data.texas.gov/api/views.json?limit=" ++ Text.show_Z limit in
  match fetchJSON_views url with
  | inl e => inl e
  | inr data =>
      inr {| datasets := map of_item data;
             metadata := metadata st;
             legalDatasets := legalDatasets st;
             categorized := categorized st;
             browser := browser st |}
  end.

(** The body of the [try] inside the loop: [true] when [fetchJSON] resolves. *)
Definition probe (ds : dataset) : bool :=
  match fetchJSON_resource ("https://data.texas.gov/resource/" ++ id ds ++ ".json?$limit=1") with
  | inr _ => true
  | inl _ => false
  end.

Definition measureAPIReachability (st : TexasDataCrawler) : api_stats :=
  let total := Z.min 20 (Z.of_nat (List.length (datasets st))) in
  let reachable :=
    fold_left (fun r ds => if probe ds then (r + 1)%Z else r)
              (firstn (Z.to_nat total) (datasets st)) 0%Z in
  {| reachable := reachable; total := total; rate := rate_of reachable total |}.

(** What [run] leaves behind. *)
Record outcome : Type := {
  final : TexasDataCrawler;
  executed : list stage;            (* the steps that were started, in order *)
  caught : option exn;              (* the error printed by the catch clause *)
  apiStats : option api_stats;
  report : option quality_report;
  written : list string;            (* files written by the export step *)
  closed : bool                     (* finally: this.browser?.close() was called *)
}.

(** [run(withBrowser)]; file writes are outside the model. *)
Definition run (withBrowser : bool) : outcome :=
  match discoverDatasetsViaAPI new 100 with
  | inl e =>
      {| final := new; executed := [Discover]; caught := Some e;
         apiStats := None; report := None; written := []; closed := false |}
  | inr st1 =>
      let st2 := {| datasets := datasets st1; metadata := datasets st1;
                    legalDatasets := legalDatasets st1;
                    categorized := categorized st1; browser := browser st1 |} in
      let st3 := {| datasets := datasets st2; metadata := metadata st2;
                    legalDatasets := legalDatasets st2;
                    categorized := categorized st2;
                    browser := withBrowser && browser_found |} in
      let st4 := filterLegalDatasets st3 in
      {| final := st4;
         executed :=
           [Discover] ++ (if withBrowser then [InitBrowser] else []) ++ [Filter] ++
           (if browser st4 then [DeepMetadata] else []) ++ [Measure; Score; Export];
         caught := None;
         apiStats := Some (measureAPIReachability st4);
         report := Some (generateQualityScores st4);
         written := [ "/Users/owner/texas_datasets.json";
                      "/Users/owner/texas_datasets.csv";
                      "/Users/owner/texas_legal_datasets_langgraph.json" ];
         closed := browser st4 |}
  end.

End World.

End Single.

(* ===================================================================== *)
(** ** The multi-source script: TEXAS_DATA_SOURCES and class TexasMultiSourceCrawler *)
(* ===================================================================== *)

Module Multi.
Import JS Net Buckets Pipeline.
Local Open Scope string_scope.

Record source_config : Type := {
  src_type : string;
  api : option string;
  baseUrl : string;
  src_description : string;
  src_legalKeywords : list string
}.

Definition TEXAS_DATA_SOURCES : list (string * source_config) :=
  [ ("data.texas.gov",
     {| src_type := "socrata"; api := Some "https://data.texas.gov/api/views.json";
        baseUrl := "https://data.texas.gov";
        src_description := "Texas Open Data Portal - Main Socrata source";
        src_legalKeywords := ["tdcj"; "tdi"; "tdlr"; "insurance"; "license"; "court";
                              "crime"; "prison"; "abuse"; "neglect"] |});
    ("capitol.texas.gov",
     {| src_type := "api"; api := None; baseUrl := "https://capitol.texas.gov";
        src_description := "Texas Capitol / Legislature";
        src_legalKeywords := ["legislature"; "bill"; "resolution"; "session"; "law"] |});
    ("statutes.capitol.texas.gov",
     {| src_type := "api"; api := None; baseUrl := "https://statutes.capitol.texas.gov";
        src_description := "Texas Statutes full text";
        src_legalKeywords := ["penal code"; "civil statute"; "chapter"; "section"; "law";
                              "regulation"] |});
    ("www.texasattorneygeneral.gov",
     {| src_type := "api"; api := None; baseUrl := "https://www.texasattorneygeneral.gov";
        src_description := "Texas Attorney General";
        src_legalKeywords := ["attorney general"; "opinion"; "legal"; "consumer"; "crime"] |});
    ("txcourts.gov",
     {| src_type := "api"; api := Some "https://search.txcourts.gov/api";
        baseUrl := "https://txcourts.gov";
        src_description := "Texas Judicial Branch";
        src_legalKeywords := ["court"; "case"; "judicial"; "docket"; "trial"] |});
    ("www.sos.state.tx.us",
     {| src_type := "api"; api := None; baseUrl := "https://www.sos.state.tx.us";
        src_description := "Texas Secretary of State";
        src_legalKeywords := ["notary"; "corporation"; "election"; "filing"] |});
    ("lrl.texas.gov",
     {| src_type := "api"; api := None; baseUrl := "https://lrl.texas.gov";
        src_description := "Texas Legislative Reference Library";
        src_legalKeywords := ["bill"; "legislation"; "member"; "committee"; "session"] |});
    ("sll.texas.gov",
     {| src_type := "api"; api := None; baseUrl := "https://sll.texas.gov";
        src_description := "Texas State Law Library";
        src_legalKeywords := ["law"; "legal"; "statute"; "code"; "research"] |});
    ("comptroller.texas.gov",
     {| src_type := "api"; api := None; baseUrl := "https://comptroller.texas.gov";
        src_description := "Texas Comptroller";
        src_legalKeywords := ["tax"; "budget"; "finance"; "revenue"] |});
    ("gov.texas.gov",
     {| src_type := "api"; api := None; baseUrl := "https://gov.texas.gov";
        src_description := "Texas Governor";
        src_legalKeywords := ["executive"; "order"; "proclamation"; "appointment"] |});
    ("www.legis.texas.gov",
     {| src_type := "api"; api := None; baseUrl := "https://www.legis.texas.gov";
        src_description := "Texas Legislature Online";
        src_legalKeywords := ["bill"; "legislation"; "hearing"; "committee"] |});
    ("www.lbb.texas.gov",
     {| src_type := "api"; api := None; baseUrl := "https://www.lbb.texas.gov";
        src_description := "Texas Legislative Budget Board";
        src_legalKeywords := ["budget"; "appropriation"; "fiscal"] |});
    ("efiletexas.gov",
     {| src_type := "api"; api := None; baseUrl := "https://www.efiletexas.gov";
        src_description := "Texas eFiling Portal";
        src_legalKeywords := ["filing"; "court"; "document"; "efile"] |});
    ("www.bellcountytx.com",
     {| src_type := "api"; api := None; baseUrl := "https://www.bellcountytx.com";
        src_description := "Bell County Official Site";
        src_legalKeywords := ["court"; "clerk"; "district"; "county"; "legal"] |}) ].

(** [obj[key]] on an object kept as the list of its entries in insertion order. *)
Fixpoint get_key {A : Type} (key : string) (entries : list (string * A)) : option A :=
  match entries with
  | [] => None
  | (k, v) :: rest => if String.eqb k key then Some v else get_key key rest
  end.

(** [obj[key] = v]: an existing key keeps its place, a new one goes last. *)
Fixpoint set_key {A : Type} (key : string) (v : A) (entries : list (string * A))
  : list (string * A) :=
  match entries with
  | [] => [(key, v)]
  | (k, old) :: rest =>
      if String.eqb k key then (k, v) :: rest else (k, old) :: set_key key v rest
  end.

(** [Object.keys(obj)] *)
Definition keys {A : Type} (entries : list (string * A)) : list string := map fst entries.

(** The records of both kinds of source; a scraped link has no [id],
    [category], [tags], counts, [displayType] or [apiUrl]. *)
Record dataset : Type := {
  id : option string;
  name : string;
  description : string;
  category : option string;
  tags : option (list string);
  viewCount : option Z;
  downloadCount : option Z;
  displayType : option string;
  source : string;
  sourceType : string;
  url : string;
  apiUrl : option string
}.

(** A hyperlink returned by the extraction expression of [crawlGeneric]. *)
Record link : Type := { text : string; href : string }.

Record score_entry : Type := {
  s_id : string;
  s_name : string;
  qualityScore : Z
}.

Record TexasMultiSourceCrawler : Type := {
  datasets : list (string * list dataset);
  legalDatasets : list dataset;
  categorized : Buckets.categorized dataset;
  browser : bool;                     (* this.browser is a connected CDPBrowser *)
  qualityScores : list score_entry;
  apiReachability : gmap string bool
}.

(** [constructor] *)
Definition new : TexasMultiSourceCrawler :=
  {| datasets := []; legalDatasets := []; categorized := Buckets.empty;
     browser := false; qualityScores := []; apiReachability := ∅ |}.

(** [`${o}`] for a string that may be [null] or [undefined]. *)
Definition show_null (o : option string) : string :=
  match o with
  | Some s => s
  | None => "null"
  end.

Definition show_undefined (o : option string) : string :=
  match o with
  | Some s => s
  | None => "undefined"
  end.

(** The arrow function of [data.map] in [crawlSocrata]. *)
Definition of_item (source : string) (d : item) : dataset :=
  {| id := Some (item_id d);
     name := item_name d;
     description := or_empty (item_description d);
     category := Some (or_empty (item_category d));
     tags := Some (or_nil (item_tags d));
     viewCount := Some (or_zero (item_viewCount d));
     downloadCount := Some (or_zero (item_downloadCount d));
     displayType := item_displayType d;
     source := source;
     sourceType := "socrata";
     url := "https://data.texas.gov/dataset/" ++ item_id d;
     apiUrl := Some ("https://data.texas.gov/resource/" ++ item_id d ++ ".json") |}.

(** The arrow function of [legalLinks.map] in [crawlGeneric]. *)
Definition of_link (source : string) (config : source_config) (l : link) : dataset :=
  {| id := None;
     name := text l;
     description := "Scraped from " ++ src_description config;
     category := None;
     tags := None;
     viewCount := None;
     downloadCount := None;
     displayType := None;
     source := source;
     sourceType := "scraper";
     url := href l;
     apiUrl := None |}.

(** The two callbacks of [checkReachability]:
    [res => resolve(res.statusCode === 200)] and [() => resolve(false)]. *)
Definition on_event (ev : http_event) : bool :=
  match ev with
  | Response statusCode => (statusCode =? 200)%Z
  | ErrorEvent _ => false
  end.

(** [checkReachability(url)]: the requests it issues, and the promise it
    returns.  The executor of the promise calls [https.get(url, ...)]: an
    exception thrown by that call rejects the promise, and no request has
    been made; otherwise the first event of the request calls [resolve],
    and only the first call of [resolve] settles a promise. *)
Definition checkReachability (https_get : string -> get_outcome) (url : string)
  : list string * promise bool :=
  match https_get url with
  | Throws e => ([], Rejected e)
  | Emits events =>
      ([url],
       match events with
       | [] => Pending
       | ev :: _ => Fulfilled (on_event ev)
       end)
  end.

Definition legalKeywords : list string :=
  [ "legal"; "law"; "court"; "attorney"; "license"; "permit";
    "regulation"; "statute"; "crime"; "criminal"; "justice";
    "violation"; "penalty"; "fine"; "compliance"; "regulatory";
    "insurance"; "tdi"; "txdps"; "bar"; "lawyer"; "filing";
    "case"; "judge"; "prosecutor"; "defense"; "litigation";
    "tarrant"; "harris"; "dallas"; "travis"; "bexar"; "bell";
    "child"; "abuse"; "neglect"; "prison"; "release"; "inmate";
    "tdcj"; "tdlr"; "bill"; "legislation"; "session" ].

(** [`${ds.name} ${ds.description || ''}`.toLowerCase()], the text of
    both the filter predicate and the categorizer. *)
Definition filter_text (ds : dataset) : string :=
  Text.toLowerCase (name ds ++ " " ++ description ds).

(** The predicate of [allDatasets.filter]. *)
Definition isLegal (ds : dataset) : bool :=
  existsb (fun kw => Text.includes (filter_text ds) kw) legalKeywords.

(** The if / else-if chain of the [forEach] body. *)
Definition categorize (ds : dataset) : Buckets.category :=
  let text := filter_text ds in
  if Text.includes text "court" || Text.includes text "case" || Text.includes text "filing" ||
     Text.includes text "criminal" || Text.includes text "prosecution" || Text.includes text "dps" ||
     Text.includes text "crime" || Text.includes text "violation" || Text.includes text "penalty" ||
     Text.includes text "prison" || Text.includes text "inmate" || Text.includes text "release" ||
     Text.includes text "statute" || Text.includes text "penal code"
  then Law
  else if Text.includes text "news" || Text.includes text "report" || Text.includes text "press" ||
          Text.includes text "publication" || Text.includes text "announcement"
  then News
  else if Text.includes text "attorney" || Text.includes text "lawyer" || Text.includes text "license" ||
          Text.includes text "bar" || Text.includes text "permit" || Text.includes text "compliance"
  then Attorney
  else Law.

(** [allDatasets]: the lists of every crawled source, concatenated. *)
Definition allDatasets (st : TexasMultiSourceCrawler) : list dataset :=
  fold_left (fun acc src => (acc ++ match get_key src (datasets st) with
                                    | Some l => l
                                    | None => []
                                    end)%list)
            (keys (datasets st)) [].

Definition filterLegalDatasets (st : TexasMultiSourceCrawler) : TexasMultiSourceCrawler :=
  let legal := List.filter isLegal (allDatasets st) in
  {| datasets := datasets st;
     legalDatasets := legal;
     categorized := forEach_push categorize legal;
     browser := browser st;
     qualityScores := qualityScores st;
     apiReachability := apiReachability st |}.

(** [ds.description && ds.description.length > n] *)
Definition description_longer (ds : dataset) (n : Z) : bool :=
  negb (String.eqb (description ds) EmptyString) && (n <? Text.length (description ds))%Z.

(** [ds.viewCount > n] where the count may be [undefined]. *)
Definition greater (o : option Z) (n : Z) : bool :=
  match o with
  | Some v => (n <? v)%Z
  | None => false
  end.

(** [ds.tags && ds.tags.length > 0] *)
Definition has_tags (ds : dataset) : bool :=
  match tags ds with
  | Some l => (0 <? Z.of_nat (List.length l))%Z
  | None => false
  end.

(** The running variable [score] of the arrow function, before the cap. *)
Definition raw_score (ds : dataset) : Z :=
  let score := 50%Z in
  let score := if description_longer ds 100 then (score + 15)%Z else score in
  let score := if description_longer ds 300 then (score + 10)%Z else score in
  let score := if greater (viewCount ds) 100 then (score + 10)%Z else score in
  let score := if greater (downloadCount ds) 50 then (score + 10)%Z else score in
  let score := if has_tags ds then (score + 5)%Z else score in
  score.

(** [Math.min(100, score)] *)
Definition quality (ds : dataset) : Z := Z.min 100 (raw_score ds).

(** [ds.id || ds.url] *)
Definition id_or_url (ds : dataset) : string :=
  match id ds with
  | Some i => if String.eqb i EmptyString then url ds else i
  | None => url ds
  end.

Definition score_of (ds : dataset) : score_entry :=
  {| s_id := id_or_url ds; s_name := name ds; qualityScore := quality ds |}.

Record quality_report : Type := {
  scores : list score_entry;
  averageScore : Number.number
}.

Definition generateQualityScores (st : TexasMultiSourceCrawler)
  : TexasMultiSourceCrawler * quality_report :=
  let scores := map score_of (legalDatasets st) in
  ({| datasets := datasets st;
      legalDatasets := legalDatasets st;
      categorized := categorized st;
      browser := browser st;
      qualityScores := scores;
      apiReachability := apiReachability st |},
   {| scores := scores;
      averageScore :=
        Number.div (fold_left (fun a b => (a + qualityScore b)%Z) scores 0%Z)
                   (Z.of_nat (List.length scores)) |}).

(** The [rate] of [measureAPIReachability]: a text, or the number 0. *)
Inductive rate_value : Type :=
| RateText (s : string)
| RateNumber (n : Z).

Record api_stats : Type := {
  reachable : Z;
  total : Z;
  rate : rate_value
}.

(** The label that [exportLegalCSV] writes next to a record; it is
    computed again, by a shorter chain than the one of [categorize]. *)
Definition csv_category (ds : dataset) : Buckets.category :=
  let text := filter_text ds in
  if Text.includes text "news" || Text.includes text "report" || Text.includes text "press"
  then News
  else if Text.includes text "attorney" || Text.includes text "license" ||
          Text.includes text "bar"
  then Attorney
  else Law.

(** What [initBrowser] leaves behind.  The listener of the [end] event of
    its request calls [JSON.parse(data)] outside the [try] of the
    surrounding function: when the body is not JSON the exception leaves
    the listener, and Node ends the process.  Every other failure is
    caught or rejects the awaited promise, and [initBrowser] returns. *)
Inductive browser_outcome : Type :=
| BrowserSet             (* [this.browser] is assigned *)
| BrowserNull            (* [this.browser] is still [null] *)
| BodyNotJSON.           (* uncaught [SyntaxError] *)

(** [total > 0 ? (reachable / total * 100).toFixed(1) : 0] *)
Definition rate_of (reachable total : Z) : rate_value :=
  if (0 <? total)%Z
  then RateText (Number.toFixed1 (Number.scale (Number.div reachable total) 100))
  else RateNumber 0.

Section World.
(** [fetchJSON] at the listing endpoint and at a resource endpoint (whose
    body is discarded), the first event emitted by an [https.get] request,
    the outcome of [initBrowser], the outcome of the browser conversation
    of [crawlGeneric] up to [JSON.parse(links)], and [fs.writeFileSync] at
    a path: [None] when the file is written, the exception otherwise. *)
Variable fetchJSON_views : string -> fetched (list item).
Variable fetchJSON_resource : string -> fetched unit.
Variable https_get : string -> http_event.
Variable initBrowser_outcome : browser_outcome.
Variable browser_links : string -> fetched (list link).
Variable writeFileSync : string -> option exn.

Definition set_reachability (st : TexasMultiSourceCrawler) (source : string) (b : bool)
  : TexasMultiSourceCrawler :=
  {| datasets := datasets st;
     legalDatasets := legalDatasets st;
     categorized := categorized st;
     browser := browser st;
     qualityScores := qualityScores st;
     apiReachability := <[source := b]> (apiReachability st) |}.

Definition set_datasets (st : TexasMultiSourceCrawler) (source : string) (l : list dataset)
  : TexasMultiSourceCrawler :=
  {| datasets := set_key source l (datasets st);
     legalDatasets := legalDatasets st;
     categorized := categorized st;
     browser := browser st;
     qualityScores := qualityScores st;
     apiReachability := apiReachability st |}.

(** [crawlSocrata(source, limit)]: everything happens inside one [try]. *)
Definition crawlSocrata (st : TexasMultiSourceCrawler) (source : string) (limit : Z)
  : TexasMultiSourceCrawler * list dataset :=
  let attempt : exn + list item :=
    match get_key source TEXAS_DATA_SOURCES with
    | None => inl TypeError
    | Some config =>
        fetchJSON_views (show_null (api config) ++ "?limit=" ++ Text.show_Z limit)
    end in
  match attempt with
  | inr data =>
      let found := map (of_item source) data in
      (set_reachability (set_datasets st source found) source true, found)
  | inl _ =>
      (set_reachability st source false, [])
  end.

(** [await this.checkReachability(url)] at a base URL of
    [TEXAS_DATA_SOURCES]: all of them are https URLs, so the request is
    made, and it emits an event. *)
Definition await_checkReachability (url : string) : bool :=
  match snd (checkReachability (fun address => Emits [https_get address]) url) with
  | Fulfilled b => b
  | _ => false
  end.

(** [crawlGeneric(source)] *)
Definition crawlGeneric (st : TexasMultiSourceCrawler) (source : string)
  : exn + (TexasMultiSourceCrawler * list dataset) :=
  match get_key source TEXAS_DATA_SOURCES with
  | None => inl TypeError
  | Some config =>
      let reachable := await_checkReachability (baseUrl config) in
      let st1 := set_reachability st source reachable in
      if negb reachable then inr (st1, [])
      else if negb (browser st1) then inr (st1, [])
      else
        match browser_links source with
        | inl _ => inr (st1, [])
        | inr parsed =>
            let legalLinks :=
              List.filter
                (fun l => existsb (fun kw => Text.includes (Text.toLowerCase (text l)) kw)
                                  (src_legalKeywords config))
                parsed in
            let found := map (of_link source config) legalLinks in
            inr (set_datasets st1 source found, found)
        end
  end.

(** One round of the [for] loop of [crawlAllSources]; an exception of an
    earlier round has ended the loop. *)
Definition crawl_source (acc : exn + TexasMultiSourceCrawler) (src : string)
  : exn + TexasMultiSourceCrawler :=
  match acc with
  | inl e => inl e
  | inr s =>
      if String.eqb src "data.texas.gov" then inr s
      else match crawlGeneric s src with
           | inl e => inl e
           | inr (s', _) => inr s'
           end
  end.

(** [crawlAllSources()] *)
Definition crawlAllSources (st : TexasMultiSourceCrawler) : exn + TexasMultiSourceCrawler :=
  let st1 := fst (crawlSocrata st "data.texas.gov" 100) in
  if browser st1 then fold_left crawl_source (keys TEXAS_DATA_SOURCES) (inr st1)
  else inr st1.

(** The body of the first [try]: [true] when [fetchJSON] resolves. *)
Definition probe (ds : dataset) : bool :=
  match fetchJSON_resource
          ("https://data.texas.gov/resource/" ++ show_undefined (id ds) ++ ".json?$limit=1") with
  | inr _ => true
  | inl _ => false
  end.

(** The two loops of [measureAPIReachability]. *)
Definition measure_datasets (st : TexasMultiSourceCrawler) : Z * Z :=
  fold_left
    (fun '(reachable, total) ds =>
       if probe ds then ((reachable + 1)%Z, (total + 1)%Z) else (reachable, (total + 1)%Z))
    (match get_key "data.texas.gov" (datasets st) with
     | Some l => firstn 10 l
     | None => []
     end)
    (0%Z, 0%Z).

(** One round of the second loop; the [try] turns a missing table entry
    into a failed probe. *)
Definition measure_source (acc : TexasMultiSourceCrawler * (Z * Z)) (src : string)
  : TexasMultiSourceCrawler * (Z * Z) :=
  let '(s, (reachable, total)) := acc in
  if String.eqb src "data.texas.gov" then (s, (reachable, total))
  else
    match get_key src TEXAS_DATA_SOURCES with
    | None => (s, (reachable, (total + 1)%Z))
    | Some config =>
        let reachable_now := await_checkReachability (baseUrl config) in
        (set_reachability s src reachable_now,
         ((if reachable_now then (reachable + 1)%Z else reachable), (total + 1)%Z))
    end.

Definition measure_sources (st : TexasMultiSourceCrawler) (counts : Z * Z)
  : TexasMultiSourceCrawler * (Z * Z) :=
  fold_left measure_source (keys TEXAS_DATA_SOURCES) (st, counts).

Definition measureAPIReachability (st : TexasMultiSourceCrawler)
  : TexasMultiSourceCrawler * api_stats :=
  let '(st', (reachable, total)) := measure_sources st (measure_datasets st) in
  (st', {| reachable := reachable; total := total; rate := rate_of reachable total |}).

(** The calls of [fs.writeFileSync], in order: the first one that throws
    ends the export; the files before it are written. *)
Fixpoint write_files (files : list string) : list string * option exn :=
  match files with
  | [] => ([], None)
  | file :: rest =>
      match writeFileSync file with
      | Some e => ([], Some e)
      | None => let '(done, failure) := write_files rest in (file :: done, failure)
      end
  end.

(** [exportAll(filename)] writes the JSON file, then [exportCSV] and
    [exportLegalCSV] write theirs. *)
Definition exportAll (filename : string) : list string * option exn :=
  write_files [ filename;
                "/Users/owner/texas_all_sources_datasets.csv";
                "/Users/owner/texas_legal_datasets.csv" ].

(** What [run] leaves behind. *)
Record outcome : Type := {
  final : TexasMultiSourceCrawler;
  executed : list stage;            (* the steps that were started, in order *)
  caught : option exn;              (* the error printed by the catch clause *)
  uncaught : option exn;            (* the exception that ended the process *)
  apiStats : option api_stats;
  report : option quality_report;
  written : list string;            (* files written by the export step *)
  closed : bool                     (* finally: this.browser?.close() was called *)
}.

(** The object of the constructor, after [initBrowser]. *)
Definition after_initBrowser (assigned : bool) : TexasMultiSourceCrawler :=
  {| datasets := []; legalDatasets := []; categorized := Buckets.empty;
     browser := assigned;
     qualityScores := []; apiReachability := ∅ |}.

(** [run(withBrowser)] *)
Definition run (withBrowser : bool) : outcome :=
  match (if withBrowser then initBrowser_outcome else BrowserNull) with
  | BodyNotJSON =>                  (* the process ends inside [initBrowser] *)
      {| final := new; executed := [InitBrowser];
         caught := None; uncaught := Some SyntaxError;
         apiStats := None; report := None; written := []; closed := false |}
  | found =>
      let st0 := after_initBrowser (match found with BrowserSet => true | _ => false end) in
      let started := ((if withBrowser then [InitBrowser] else []) ++ [Discover])%list in
      match crawlAllSources st0 with
      | inl e =>                    (* only for a source missing from the table *)
          {| final := st0; executed := started; caught := Some e; uncaught := None;
             apiStats := None; report := None; written := []; closed := browser st0 |}
      | inr st1 =>
          let st2 := filterLegalDatasets st1 in
          let '(st3, stats) := measureAPIReachability st2 in
          let '(st4, rep) := generateQualityScores st3 in
          let '(files, failure) := exportAll "/Users/owner/texas_multi_source_data.json" in
          {| final := st4;
             executed := (started ++ [Filter; Measure; Score; Export])%list;
             caught := failure;
             uncaught := None;
             apiStats := Some stats;
             report := Some rep;
             written := files;
             closed := browser st4 |}
      end
  end.

End World.

End Multi.

(* ===================================================================== *)
(** ** The properties, in the words of the specification *)
(* ===================================================================== *)

Module Spec.
Import JS.
Local Open Scope string_scope.

(** [kw] occurs in [text] as a substring. *)
Definition occurs (kw text : string) : Prop :=
  exists pre suf : string, text = pre ++ kw ++ suf.

(** A bonus of [n] points when [b] holds. *)
Definition bonus (b : bool) (n : Z) : Z := if b then n else 0%Z.

(** The quality score as the specification words it: base 50, five
    additive bonuses, capped at 100. *)
Definition quality_score (descLength views downloads tagCount : Z) : Z :=
  Z.min 100
    (50 + bonus (100 <? descLength)%Z 15 + bonus (300 <? descLength)%Z 10
        + bonus (100 <? views)%Z 10 + bonus (50 <? downloads)%Z 10
        + bonus (0 <? tagCount)%Z 5)%Z.

(** Every bonus of the score applies. *)
Definition all_bonuses (descLength views downloads tagCount : Z) : Prop :=
  (300 < descLength /\ 100 < views /\ 50 < downloads /\ 0 < tagCount)%Z.

(** The same record with another description. *)
Definition single_with_description (ds : Single.dataset) (d : string) : Single.dataset :=
  {| Single.id := Single.id ds;
     Single.name := Single.name ds;
     Single.description := d;
     Single.category := Single.category ds;
     Single.tags := Single.tags ds;
     Single.viewCount := Single.viewCount ds;
     Single.downloadCount := Single.downloadCount ds;
     Single.createdAt := Single.createdAt ds;
     Single.updatedAt := Single.updatedAt ds;
     Single.displayType := Single.displayType ds;
     Single.url := Single.url ds |}.

Definition multi_with_description (ds : Multi.dataset) (d : string) : Multi.dataset :=
  {| Multi.id := Multi.id ds;
     Multi.name := Multi.name ds;
     Multi.description := d;
     Multi.category := Multi.category ds;
     Multi.tags := Multi.tags ds;
     Multi.viewCount := Multi.viewCount ds;
     Multi.downloadCount := Multi.downloadCount ds;
     Multi.displayType := Multi.displayType ds;
     Multi.source := Multi.source ds;
     Multi.sourceType := Multi.sourceType ds;
     Multi.url := Multi.url ds;
     Multi.apiUrl := Multi.apiUrl ds |}.

(** The text that the specification gives to the relevance filter: the
    lower-cased concatenation of name, description, category and joined
    tags. *)
Definition relevance_text (name description category : string) (tags : list string) : string :=
  Text.toLowerCase (name ++ " " ++ description ++ " " ++ category ++ " " ++ Text.join " " tags).

(** The text of the category assignment: lower-cased name and description. *)
Definition category_text (name description : string) : string :=
  Text.toLowerCase (name ++ " " ++ description).

(** The category of the specification for a text, given the terms of the
    first priority: first match wins, LAW_VERIFICATION is the fallback. *)
Definition category_of (lawTerms : list string) (text : string) : Buckets.category :=
  if existsb (Text.includes text) lawTerms then Buckets.Law
  else if existsb (Text.includes text)
            ["news"; "report"; "press"; "publication"; "announcement"] then Buckets.News
  else if existsb (Text.includes text)
            ["attorney"; "lawyer"; "license"; "bar"; "permit"; "compliance"] then Buckets.Attorney
  else Buckets.Law.

(** [n] is [q] rounded to one decimal, counted in tenths. *)
Definition rounded_to_tenths (q : Q) (n : Z) : Prop :=
  (inject_Z n - (1 # 2) <= q * inject_Z 10 /\ q * inject_Z 10 < inject_Z n + (1 # 2))%Q.

(** Number of [send] calls in a trace. *)
Fixpoint count_sends (evs : list CDP.event) : nat :=
  match evs with
  | [] => 0%nat
  | CDP.Send _ _ :: rest => S (count_sends rest)
  | CDP.Message _ :: rest => count_sends rest
  end.

(** The payload of a response message: its [result] member, when it has
    one that JavaScript counts as true, and the message itself otherwise. *)
Definition response_payload (msg : value) : value :=
  match msg with
  | Obj ms =>
      match member "result" ms with
      | Some r => if truthy (Some r) then r else msg
      | None => msg
      end
  | _ => msg
  end.

Section Frames.
Variable JSON_parse : string -> option value.

(** The frame parses to a message whose [id] field is the number [mid]. *)
Definition answers (mid : Z) (ev : CDP.event) : option value :=
  match ev with
  | CDP.Send _ _ => None
  | CDP.Message data =>
      match JSON_parse data with
      | Some (Obj ms) =>
          match member "id" ms with
          | Some (Num k) => if (k =? mid)%Z then Some (Obj ms) else None
          | _ => None
          end
      | _ => None
      end
  end.

(** The first incoming message whose [id] field equals [mid]. *)
Fixpoint first_answer (mid : Z) (evs : list CDP.event) : option value :=
  match evs with
  | [] => None
  | ev :: rest =>
      match answers mid ev with
      | Some msg => Some msg
      | None => first_answer mid rest
      end
  end.

(** A frame that [JSON.parse] accepts and that is not the literal [null]. *)
Definition well_formed (ev : CDP.event) : bool :=
  match ev with
  | CDP.Send _ _ => true
  | CDP.Message data =>
      match JSON_parse data with
      | Some Null | None => false
      | Some _ => true
      end
  end.

End Frames.

End Spec.

(* ===================================================================== *)
(** ** The classifier and the filter, in the words of the specification *)
(* ===================================================================== *)

Module ClassifierSpec.
Import Buckets.
Local Open Scope string_scope.

(** The terms of the first priority in each script. *)
Definition law_terms_single : list string :=
  [ "court"; "case"; "filing"; "criminal"; "prosecution"; "dps";
    "crime"; "violation"; "penalty" ].

Definition law_terms_multi : list string :=
  [ "court"; "case"; "filing"; "criminal"; "prosecution"; "dps";
    "crime"; "violation"; "penalty"; "prison"; "inmate"; "release";
    "statute"; "penal code" ].

Definition single_category (ds : Single.dataset) : category :=
  Spec.category_of law_terms_single
    (Spec.category_text (Single.name ds) (Single.description ds)).

Definition multi_category (ds : Multi.dataset) : category :=
  Spec.category_of law_terms_multi
    (Spec.category_text (Multi.name ds) (Multi.description ds)).

(** The buckets [c] hold the relevant records of [all], each in the
    bucket of its category and in the order of [all]. *)
Definition classifies {A : Type} (all : list A) (relevant : A -> bool)
           (category_of : A -> category) (c : categorized A) : Prop :=
  forall cat,
    bucket c cat =
    List.filter (fun ds => relevant ds && category_eqb (category_of ds) cat) all.

End ClassifierSpec.

(* ===================================================================== *)
(** ** Sample inputs *)
(* ===================================================================== *)

Module Samples.
Import JS.
Local Open Scope string_scope.

(** A description of 400 characters. *)
Definition long_description : string := string_of_list_ascii (repeat "a"%char 400).

(** A catalog record of the single-source crawler. *)
Definition court_record : Single.dataset :=
  {| Single.id := "abcd-1234";
     Single.name := "Court case filing";
     Single.description := EmptyString;
     Single.category := "Public Safety";
     Single.tags := ["court"];
     Single.viewCount := 250;
     Single.downloadCount := 10;
     Single.createdAt := None;
     Single.updatedAt := None;
     Single.displayType := Some "table";
     Single.url := "https://data.texas.gov/dataset/abcd-1234" |}.

(** A catalog record of the multi-source crawler with court and news in
    its name. *)
Definition court_news : Multi.dataset :=
  {| Multi.id := Some "wxyz-0002";
     Multi.name := "Court News Digest";
     Multi.description := EmptyString;
     Multi.category := Some EmptyString;
     Multi.tags := Some [];
     Multi.viewCount := Some 0;
     Multi.downloadCount := Some 0;
     Multi.displayType := None;
     Multi.source := "data.texas.gov";
     Multi.sourceType := "socrata";
     Multi.url := "https://data.texas.gov/dataset/wxyz-0002";
     Multi.apiUrl := Some "https://data.texas.gov/resource/wxyz-0002.json" |}.

(** A catalog record of the multi-source crawler whose only legal term
    is in its category. *)
Definition category_only : Multi.dataset :=
  {| Multi.id := Some "wxyz-0001";
     Multi.name := "x";
     Multi.description := EmptyString;
     Multi.category := Some "court";
     Multi.tags := Some [];
     Multi.viewCount := Some 0;
     Multi.downloadCount := Some 0;
     Multi.displayType := None;
     Multi.source := "data.texas.gov";
     Multi.sourceType := "socrata";
     Multi.url := "https://data.texas.gov/dataset/wxyz-0001";
     Multi.apiUrl := Some "https://data.texas.gov/resource/wxyz-0001.json" |}.

End Samples.

(* ===================================================================== *)
(** ** A parser for a fragment of JSON, for the examples *)
(* ===================================================================== *)

(** The frames of the examples are written in JSON without escape
    sequences, fractions and exponents; text outside this fragment is
    rejected.  The theorems about [CDPBrowser] hold for every parser. *)
Module MiniJSON.
Import JS.
Local Open Scope string_scope.

Definition quote : ascii := "034"%char.
Definition backslash : ascii := "092"%char.

Definition is_ws (c : ascii) : bool :=
  Ascii.eqb c " "%char || Ascii.eqb c "009"%char || Ascii.eqb c "010"%char ||
  Ascii.eqb c "013"%char.

Fixpoint skip_ws (s : string) : string :=
  match s with
  | String c r => if is_ws c then skip_ws r else s
  | EmptyString => EmptyString
  end.

Fixpoint drop (n : nat) (s : string) : string :=
  match n, s with
  | S n', String _ r => drop n' r
  | _, _ => s
  end.

Definition digit (c : ascii) : option Z :=
  let n := nat_of_ascii c in
  if ((48 <=? n) && (n <=? 57))%nat then Some (Z.of_nat (n - 48)) else None.

Fixpoint digits (s : string) (acc : Z) : Z * string :=
  match s with
  | String c r =>
      match digit c with
      | Some d => digits r (10 * acc + d)%Z
      | None => (acc, s)
      end
  | EmptyString => (acc, EmptyString)
  end.

(** An integer without leading zeros. *)
Definition natural (s : string) : option (Z * string) :=
  match s with
  | String c r =>
      match digit c with
      | Some d =>
          if (d =? 0)%Z
          then match r with
               | String c' _ => match digit c' with
                                | Some _ => None
                                | None => Some (0%Z, r)
                                end
               | EmptyString => Some (0%Z, r)
               end
          else Some (digits s 0)
      | None => None
      end
  | EmptyString => None
  end.

Definition number (s : string) : option (Z * string) :=
  match s with
  | String c r =>
      if Ascii.eqb c "-"%char
      then match natural r with
           | Some (n, rest) => Some ((- n)%Z, rest)
           | None => None
           end
      else natural s
  | EmptyString => None
  end.

(** The characters of a string literal after its opening quote. *)
Fixpoint string_body (s : string) : option (string * string) :=
  match s with
  | EmptyString => None
  | String c r =>
      if Ascii.eqb c quote then Some (EmptyString, r)
      else if Ascii.eqb c backslash then None
      else if (nat_of_ascii c <? 32)%nat then None
      else match string_body r with
           | Some (body, rest) => Some (String c body, rest)
           | None => None
           end
  end.

Fixpoint value_ (fuel : nat) (s : string) {struct fuel} : option (value * string) :=
  match fuel with
  | O => None
  | S fuel' =>
      let s := skip_ws s in
      if Text.startsWith s "null" then Some (Null, drop 4 s)
      else if Text.startsWith s "true" then Some (Bool true, drop 4 s)
      else if Text.startsWith s "false" then Some (Bool false, drop 5 s)
      else
        match s with
        | EmptyString => None
        | String c r =>
            if Ascii.eqb c quote then
              match string_body r with
              | Some (body, rest) => Some (Str body, rest)
              | None => None
              end
            else if Ascii.eqb c "["%char then
              match skip_ws r with
              | String c' r' =>
                  if Ascii.eqb c' "]"%char then Some (Arr [], r')
                  else match elements fuel' r [] with
                       | Some (items, rest) => Some (Arr items, rest)
                       | None => None
                       end
              | EmptyString => None
              end
            else if Ascii.eqb c "{"%char then
              match skip_ws r with
              | String c' r' =>
                  if Ascii.eqb c' "}"%char then Some (Obj [], r')
                  else match members fuel' r [] with
                       | Some (ms, rest) => Some (Obj ms, rest)
                       | None => None
                       end
              | EmptyString => None
              end
            else
              match number s with
              | Some (n, rest) => Some (Num n, rest)
              | None => None
              end
        end
  end
with elements (fuel : nat) (s : string) (acc : list value) {struct fuel}
  : option (list value * string) :=
  match fuel with
  | O => None
  | S fuel' =>
      match value_ fuel' s with
      | Some (v, rest) =>
          match skip_ws rest with
          | String c r =>
              if Ascii.eqb c ","%char then elements fuel' r (acc ++ [v])
              else if Ascii.eqb c "]"%char then Some ((acc ++ [v])%list, r)
              else None
          | EmptyString => None
          end
      | None => None
      end
  end
with members (fuel : nat) (s : string) (acc : list (string * value)) {struct fuel}
  : option (list (string * value) * string) :=
  match fuel with
  | O => None
  | S fuel' =>
      match skip_ws s with
      | String c r =>
          if Ascii.eqb c quote then
            match string_body r with
            | Some (key, rest) =>
                match skip_ws rest with
                | String c' r' =>
                    if Ascii.eqb c' ":"%char then
                      match value_ fuel' r' with
                      | Some (v, rest') =>
                          match skip_ws rest' with
                          | String c'' r'' =>
                              if Ascii.eqb c'' ","%char
                              then members fuel' r'' (acc ++ [(key, v)])
                              else if Ascii.eqb c'' "}"%char
                              then Some ((acc ++ [(key, v)])%list, r'')
                              else None
                          | EmptyString => None
                          end
                      | None => None
                      end
                    else None
                | EmptyString => None
                end
            | None => None
            end
          else None
      | EmptyString => None
      end
  end.

(** The whole text must be one value. *)
Definition parse (s : string) : option value :=
  match value_ (2 * String.length s + 2) s with
  | Some (v, rest) =>
      match skip_ws rest with
      | EmptyString => Some v
      | String _ _ => None
      end
  | None => None
  end.

(** Writing frames: a quoted name, and a response envelope. *)
Definition quoted (s : string) : string :=
  String quote s ++ String quote EmptyString.

Definition response (id : Z) (result : string) : string :=
  "{" ++ quoted "id" ++ ":" ++ Text.show_Z id ++ "," ++ quoted "result" ++ ":" ++ result ++ "}".

End MiniJSON.

(* ===================================================================== *)
(** ** The invariant of a CDPBrowser and sample conversations *)
(* ===================================================================== *)

Module CDPInvariant.
Import JS CDP.

(** The shape of every state reached from [connected]: the next id is
    one more than the number of promises handed out, promise [h] belongs
    to the command with id [1 + h], the pending table holds exactly the
    promises that are not resolved yet, and the requests on the wire carry
    the ids 1, 2, 3, ... in order. *)
Record wf (st : CDPBrowser) : Prop := {
  wf_id : id st = 1 + Z.of_nat (length (promises st));
  wf_pending : forall k h, pending st !! k = Some h ->
                           k = 1 + Z.of_nat h /\ promises st !! h = Some None;
  wf_unresolved : forall h, promises st !! h = Some None ->
                            pending st !! (1 + Z.of_nat h) = Some h;
  wf_wire_length : length (wire st) = length (promises st);
  wf_wire : forall i r, wire st !! i = Some r -> req_id r = 1 + Z.of_nat i
}.

(** No promise is ever resolved with [null]. *)
Definition settled_not_null (st : CDPBrowser) : Prop :=
  forall h w, promises st !! h = Some (Some w) -> w <> Null.

End CDPInvariant.

Module Frames.
Import JS CDP MiniJSON.
Local Open Scope string_scope.

(** Two commands in flight, answered in the reverse order. *)
Definition reordered : list event :=
  [ Send "Runtime.enable" (Obj []);
    Send "Page.enable" (Obj []);
    Message (response 2 (quoted "second"));
    Message (response 1 (quoted "first")) ].

(** A frame that is not JSON, between a command and its answer. *)
Definition garbled : list event :=
  [ Send "Page.enable" (Obj []);
    Message "<html>502 Bad Gateway</html>";
    Message (response 1 (quoted "first")) ].

(** The answer of the browser to [Runtime.evaluate] of [6 * 7]. *)
Definition evaluated : list event :=
  [ Send "Runtime.evaluate" (Obj [("expression", Str "6 * 7")]);
    Message (response 1 ("{" ++ quoted "result" ++ ":{" ++ quoted "type" ++ ":" ++
                         quoted "number" ++ "," ++ quoted "value" ++ ":42}}")) ].

(** An answer without a value. *)
Definition valueless : list event :=
  [ Send "Runtime.evaluate" (Obj [("expression", Str "void 0")]);
    Message (response 1 ("{" ++ quoted "result" ++ ":{" ++ quoted "type" ++ ":" ++
                         quoted "undefined" ++ "}}")) ].

End Frames.

(* ===================================================================== *)
(** ** The value of evaluate, in the words of the specification *)
(* ===================================================================== *)

Module EvaluateSpec.
Import JS.
Local Open Scope string_scope.

(** The [.result.value] field of a payload; [None] when it is absent. *)
Definition result_value (payload : value) : option value :=
  match payload with
  | Obj ms =>
      match member "result" ms with
      | Some (Obj r) => member "value" r
      | _ => None
      end
  | _ => None
  end.

(** The request sent by [evaluate(expression)]. *)
Definition evaluate_event (expression : string) : CDP.event :=
  CDP.Send "Runtime.evaluate" (Obj [("expression", Str expression)]).

End EvaluateSpec.

(* ===================================================================== *)
(** ** CDPBrowser.navigate: three commands, one after the other *)
(* ===================================================================== *)

Module Navigate.
Import JS CDP.
Local Open Scope string_scope.

(** Where the body of [navigate] is suspended: at one of its three
    [await]s, on the promise named, or after its [return]. *)
Inductive navigation : Type :=
| AwaitRuntime (h : nat)      (* await this.send('Runtime.enable') *)
| AwaitPage (h : nat)         (* await this.send('Page.enable') *)
| AwaitNavigate (h : nat)     (* await this.send('Page.navigate', { url }) *)
| Returned (v : value).

(** The call [navigate(url)] runs up to the first [await]. *)
Definition navigate (st : CDPBrowser) : navigation * CDPBrowser :=
  let '(h, st') := send st "Runtime.enable" (Obj []) in (AwaitRuntime h, st').

(** The body goes on when the promise it awaits is resolved. *)
Definition resume (url : string) (n : navigation) (st : CDPBrowser)
  : navigation * CDPBrowser :=
  match n with
  | AwaitRuntime h =>
      match promises st !! h with
      | Some (Some _) =>
          let '(h', st') := send st "Page.enable" (Obj []) in (AwaitPage h', st')
      | _ => (n, st)
      end
  | AwaitPage h =>
      match promises st !! h with
      | Some (Some _) =>
          let '(h', st') := send st "Page.navigate" (Obj [("url", Str url)]) in
          (AwaitNavigate h', st')
      | _ => (n, st)
      end
  | AwaitNavigate h =>
      match promises st !! h with
      | Some (Some v) => (Returned v, st)
      | _ => (n, st)
      end
  | Returned _ => (n, st)
  end.

(** The three requests of a navigation that starts with id [mid]. *)
Definition requests (mid : Z) (url : string) : list request :=
  [ {| req_id := mid; req_method := "Runtime.enable"; req_params := Obj [] |};
    {| req_id := mid + 1; req_method := "Page.enable"; req_params := Obj [] |};
    {| req_id := mid + 2; req_method := "Page.navigate";
       req_params := Obj [("url", Str url)] |} ].

(** How many of them a navigation has sent. *)
Definition sent (n : navigation) : nat :=
  match n with
  | AwaitRuntime _ => 1
  | AwaitPage _ => 2
  | AwaitNavigate _ | Returned _ => 3
  end.

Section Handler.
Variable JSON_parse : string -> option value.

(** Incoming frames while [navigate] is the only caller of the client:
    the handler runs, then the suspended body. *)
Fixpoint deliver (url : string) (n : navigation) (st : CDPBrowser) (frames : list string)
  : exn + (navigation * CDPBrowser) :=
  match frames with
  | [] => inr (n, st)
  | data :: rest =>
      match onmessage JSON_parse st data with
      | inl e => inl e
      | inr st' =>
          let '(n', st'') := resume url n st' in
          deliver url n' st'' rest
      end
  end.

(** Frames that [JSON.parse] accepts and that are not the literal [null]. *)
Definition frames_ok (frames : list string) : bool :=
  forallb (fun data => Spec.well_formed JSON_parse (Message data)) frames.

(** The first frame that answers [mid], and the frames after it. *)
Fixpoint after_answer (mid : Z) (frames : list string) : option (value * list string) :=
  match frames with
  | [] => None
  | data :: rest =>
      match Spec.answers JSON_parse mid (Message data) with
      | Some msg => Some (msg, rest)
      | None => after_answer mid rest
      end
  end.

(** Where a navigation started with id [mid] and promise [h] stands after
    [frames]: each command waits for the answer to the one before. *)
Definition progress (mid : Z) (h : nat) (frames : list string) : navigation :=
  match after_answer mid frames with
  | None => AwaitRuntime h
  | Some (_, frames1) =>
      match after_answer (mid + 1) frames1 with
      | None => AwaitPage (h + 1)
      | Some (_, frames2) =>
          match after_answer (mid + 2) frames2 with
          | None => AwaitNavigate (h + 2)
          | Some (msg, _) => Returned (payload msg)
          end
      end
  end.

End Handler.

End Navigate.

(* ===================================================================== *)
(** ** TexasDataCrawler.extractDeepMetadata *)
(* ===================================================================== *)

Module Deep.
Import JS Net.
Local Open Scope string_scope.

(** [obj.key = v] on the members of an object. *)
Definition set_member (key : string) (v : value) (members : list (string * value))
  : list (string * value) :=
  match member key members with
  | Some _ => map (fun kv => if String.eqb (fst kv) key then (fst kv, v) else kv) members
  | None => members ++ [(key, v)]
  end.

Section Browser.
(** What the body of the [try] obtains in round [i] for a dataset id:
    the members of the object parsed from the text that the extraction
    expression (a [JSON.stringify] of an object literal) evaluates to, or
    the exception raised on the way. *)
Variable page_summary : nat -> string -> fetched (list (string * value)).

(** The [for] loop from round [i] on. *)
Fixpoint extract_loop (i : nat) (ids : list string) (deepMetadata : list value)
  : list value :=
  match ids with
  | [] => deepMetadata
  | dsId :: rest =>
      match page_summary i dsId with
      | inr parsed =>
          extract_loop (S i) rest (deepMetadata ++ [Obj (set_member "id" (Str dsId) parsed)])
      | inl _ => extract_loop (S i) rest deepMetadata
      end
  end.

(** [extractDeepMetadata(datasetIds)] *)
Definition extractDeepMetadata (st : Single.TexasDataCrawler) (datasetIds : list string)
  : list value :=
  if Single.browser st then extract_loop 0 (firstn 10 datasetIds) [] else [].

(** The ids, from round [i] on, whose page was summarised. *)
Fixpoint summarised (i : nat) (ids : list string) : list string :=
  match ids with
  | [] => []
  | dsId :: rest =>
      match page_summary i dsId with
      | inr _ => dsId :: summarised (S i) rest
      | inl _ => summarised (S i) rest
      end
  end.

End Browser.

End Deep.

(* ===================================================================== *)
(** ** The CSV exports *)
(* ===================================================================== *)

Module CSV.
Import Net.
Local Open Scope string_scope.

Definition quote : ascii := "034"%char.
Definition newline : string := String "010"%char EmptyString.

(** [s.replace] with the global pattern of one double quote and the
    replacement of two: every quote is doubled. *)
Fixpoint escape (s : string) : string :=
  match s with
  | EmptyString => EmptyString
  | String c rest =>
      if Ascii.eqb c quote then String quote (String quote (escape rest))
      else String c (escape rest)
  end.

(** [s.substring(0, n)] *)
Fixpoint substring0 (n : nat) (s : string) : string :=
  match n, s with
  | S n', String c rest => String c (substring0 n' rest)
  | _, _ => EmptyString
  end.

(** The template literal that puts [s] between two double quotes. *)
Definition quoted (s : string) : string := String quote (s ++ String quote EmptyString).

(** [s || fallback] for a string. *)
Definition or_text (s fallback : string) : string :=
  if String.eqb s EmptyString then fallback else s.

(** The cells that are cut after escaping. *)
Definition cut_cell (n : nat) (s : string) : string := substring0 n (escape s).

(** One row of [exportToCSV]. *)
Definition row (ds : Single.dataset) : list string :=
  [ Single.id ds;
    quoted (escape (Single.name ds));
    quoted (cut_cell 500 (Single.description ds));
    Single.category ds;
    quoted (Text.join "; " (Single.tags ds));
    Text.show_Z (Single.viewCount ds);
    Text.show_Z (Single.downloadCount ds);
    or_empty (Single.displayType ds);
    Single.url ds ].

(** The text written by [exportToCSV]. *)
Definition exportToCSV (st : Single.TexasDataCrawler) : string :=
  Text.join newline
    (Text.join "," ["id"; "name"; "description"; "category"; "tags"; "viewCount";
                    "downloadCount"; "displayType"; "url"]
     :: map (fun ds => Text.join "," (row ds)) (Single.datasets st)).

(** One row of [exportCSV] of the multi-source crawler. *)
Definition source_row (ds : Multi.dataset) : list string :=
  [ quoted (escape (Multi.name ds));
    or_text (Multi.source ds) "unknown";
    or_text (Multi.sourceType ds) "unknown";
    Multi.url ds;
    quoted (cut_cell 300 (Multi.description ds)) ].




(** The content of a quoted cell reads back: every quote in it is the
    first of a pair. *)
Fixpoint well_quoted (s : string) : bool :=
  match s with
  | EmptyString => true
  | String c rest =>
      if Ascii.eqb c quote then
        match rest with
        | String c' rest' => Ascii.eqb c' quote && well_quoted rest'
        | EmptyString => false
        end
      else well_quoted rest
  end.

(** Reading a quoted cell: a pair of quotes stands for one quote. *)
Fixpoint unescape (s : string) : option string :=
  match s with
  | EmptyString => Some EmptyString
  | String c rest =>
      if Ascii.eqb c quote then
        match rest with
        | String c' rest' =>
            if Ascii.eqb c' quote
            then match unescape rest' with
                 | Some t => Some (String quote t)
                 | None => None
                 end
            else None
        | EmptyString => None
        end
      else match unescape rest with
           | Some t => Some (String c t)
           | None => None
           end
  end.

(** The text has no quote. *)
Fixpoint quote_free (s : string) : bool :=
  match s with
  | EmptyString => true
  | String c rest => negb (Ascii.eqb c quote) && quote_free rest
  end.

End CSV.

(* ===================================================================== *)
(** ** More sample inputs *)
(* ===================================================================== *)

Module MoreSamples.
Local Open Scope string_scope.

(** A link scraped from the courts site, with the name of
    [Samples.court_record] and no description. *)
Definition court_link : Multi.dataset :=
  {| Multi.id := None;
     Multi.name := "Court case filing";
     Multi.description := EmptyString;
     Multi.category := None;
     Multi.tags := None;
     Multi.viewCount := None;
     Multi.downloadCount := None;
     Multi.displayType := None;
     Multi.source := "txcourts.gov";
     Multi.sourceType := "scraper";
     Multi.url := "https://txcourts.gov/filing";
     Multi.apiUrl := None |}.

(** The configuration of the statutes site and a link of that site whose
    text has no legal term. *)
Definition statutes_config : Multi.source_config :=
  {| Multi.src_type := "api"; Multi.api := None;
     Multi.baseUrl := "https://statutes.capitol.texas.gov";
     Multi.src_description := "Texas Statutes full text";
     Multi.src_legalKeywords := ["penal code"; "civil statute"; "chapter"; "section"; "law";
                                 "regulation"] |}.

Definition contact_link : Multi.link :=
  {| Multi.text := "Contact us"; Multi.href := "https://statutes.capitol.texas.gov/contact" |}.

End MoreSamples.

Module Probes.
Import JS Net.
Local Open Scope string_scope.

(** A sample network: [https.get] refuses an address that does not begin
    with the https scheme, with a [TypeError], and the server of every
    other address answers 200. *)
Definition https_only (url : string) : get_outcome :=
  if Text.startsWith (Text.toLowerCase url) "https://"
  then Emits [Response 200]
  else Throws TypeError.

End Probes.

(* ===================================================================== *)
(** * Theorems *)
(* ===================================================================== *)

(** ** Facts about the text primitives *)

Module TextFacts.
Import Text.
Local Open Scope string_scope.

Lemma append_cons (c : ascii) (a b : string) : String c a ++ b = String c (a ++ b).
Proof. reflexivity. Qed.

Lemma append_nil (b : string) : EmptyString ++ b = b.
Proof. reflexivity. Qed.

Lemma startsWith_iff (s p : string) :
  startsWith s p = true <-> exists suf, s = p ++ suf.
Proof.
  revert s. induction p as [|a p IH]; intros s; simpl.
  - split; [intros _; now exists s | reflexivity].
  - destruct s as [|b s].
    + split; [discriminate | intros [suf H]; discriminate].
    + rewrite andb_true_iff, IH. split.
      * intros [Hab [suf ->]]. apply Ascii.eqb_eq in Hab as ->. now exists suf.
      * intros [suf H]. rewrite append_cons in H. injection H as -> ->.
        split; [apply Ascii.eqb_refl | now exists suf].
Qed.

Lemma includes_iff (text kw : string) :
  includes text kw = true <-> Spec.occurs kw text.
Proof.
  unfold Spec.occurs. induction text as [|c text IH]; simpl.
  - rewrite orb_false_r, startsWith_iff. split.
    + intros [suf H]. now exists EmptyString, suf.
    + intros [pre [suf H]]. destruct pre; [now exists suf | discriminate].
  - rewrite orb_true_iff, startsWith_iff, IH. split.
    + intros [[suf H] | [pre [suf H]]].
      * now exists EmptyString, suf.
      * exists (String c pre), suf. rewrite append_cons. now rewrite H.
    + intros [pre [suf H]]. destruct pre as [|x pre].
      * left. now exists suf.
      * right. rewrite append_cons in H. injection H as _ H. now exists pre, suf.
Qed.

Lemma length_nonneg (s : string) : (0 <= Text.length s)%Z.
Proof. unfold Text.length. lia. Qed.

Lemma length_empty_iff (s : string) : String.eqb s EmptyString = true <-> Text.length s = 0%Z.
Proof.
  unfold Text.length. destruct s; simpl; split; intros; try reflexivity; try discriminate; lia.
Qed.

End TextFacts.

(** ** The quality score *)

Module ScoreFacts.
Import Net.

Lemma guarded_length (d : string) (n : Z) :
  0 <= n ->
  negb (String.eqb d EmptyString) && (n <? Text.length d) = (n <? Text.length d).
Proof.
  intros Hn. destruct (String.eqb d EmptyString) eqn:E; simpl; [| reflexivity].
  apply TextFacts.length_empty_iff in E. rewrite E. symmetry. apply Z.ltb_ge. exact Hn.
Qed.

Lemma single_formula (ds : Single.dataset) :
  Single.quality ds =
  Spec.quality_score (Text.length (Single.description ds)) (Single.viewCount ds)
                     (Single.downloadCount ds) (Z.of_nat (List.length (Single.tags ds))).
Proof.
  unfold Single.quality, Single.raw_score, Single.description_longer, Spec.quality_score, Spec.bonus.
  rewrite !guarded_length by lia.
  repeat match goal with |- context [if ?b then _ else _] => destruct b end; reflexivity.
Qed.

Lemma multi_formula (ds : Multi.dataset) :
  Multi.quality ds =
  Spec.quality_score (Text.length (Multi.description ds)) (or_zero (Multi.viewCount ds))
                     (or_zero (Multi.downloadCount ds))
                     (Z.of_nat (List.length (or_nil (Multi.tags ds)))).
Proof.
  unfold Multi.quality, Multi.raw_score, Multi.description_longer, Multi.greater, Multi.has_tags,
    Spec.quality_score, Spec.bonus.
  rewrite !guarded_length by lia.
  destruct (Multi.viewCount ds), (Multi.downloadCount ds), (Multi.tags ds); simpl;
    repeat match goal with |- context [if ?b then _ else _] => destruct b end; reflexivity.
Qed.

Lemma spec_range (l v d t : Z) : 50 <= Spec.quality_score l v d t <= 100.
Proof.
  unfold Spec.quality_score, Spec.bonus.
  repeat match goal with |- context [if ?b then _ else _] => destruct b end; lia.
Qed.

Lemma spec_full (l v d t : Z) :
  Spec.quality_score l v d t = 100 <-> Spec.all_bonuses l v d t.
Proof.
  unfold Spec.quality_score, Spec.bonus, Spec.all_bonuses.
  destruct (100 <? l) eqn:E1, (300 <? l) eqn:E2, (100 <? v) eqn:E3, (50 <? d) eqn:E4,
    (0 <? t) eqn:E5;
    rewrite ?Z.ltb_lt, ?Z.ltb_ge in *; lia.
Qed.

Lemma spec_long_description (l v d t : Z) :
  300 < l -> Spec.quality_score l v d t = Spec.quality_score 0 v d t + 25.
Proof.
  intros Hl. unfold Spec.quality_score, Spec.bonus.
  replace (100 <? l) with true by (symmetry; apply Z.ltb_lt; lia).
  replace (300 <? l) with true by (symmetry; apply Z.ltb_lt; lia).
  change (100 <? 0) with false. change (300 <? 0) with false.
  repeat match goal with |- context [if ?b then _ else _] => destruct b end; lia.
Qed.

(** C3.  In both crawlers the quality score of a record is base 50 plus
    15 for a description longer than 100 characters, 10 more for one
    longer than 300, 10 for more than 100 views, 10 for more than 50
    downloads and 5 for at least one tag, capped at 100; it lies between
    0 and 100; and a record with a description of 400 characters scores
    exactly 25 more than the same record without description. *)
Theorem quality_score_as_specified :
  (forall ds : Single.dataset,
      Single.quality ds =
      Spec.quality_score (Text.length (Single.description ds)) (Single.viewCount ds)
                         (Single.downloadCount ds) (Z.of_nat (List.length (Single.tags ds)))
      /\ 0 <= Single.quality ds <= 100) /\
  (forall ds : Multi.dataset,
      Multi.quality ds =
      Spec.quality_score (Text.length (Multi.description ds)) (or_zero (Multi.viewCount ds))
                         (or_zero (Multi.downloadCount ds))
                         (Z.of_nat (List.length (or_nil (Multi.tags ds))))
      /\ 0 <= Multi.quality ds <= 100) /\
  (forall (ds : Single.dataset) (d : string),
      Text.length d = 400 ->
      Single.quality (Spec.single_with_description ds d) =
      Single.quality (Spec.single_with_description ds EmptyString) + 25) /\
  (forall (ds : Multi.dataset) (d : string),
      Text.length d = 400 ->
      Multi.quality (Spec.multi_with_description ds d) =
      Multi.quality (Spec.multi_with_description ds EmptyString) + 25).
Proof.
  repeat split.
  - apply single_formula.
  - rewrite single_formula. pose proof (spec_range (Text.length (Single.description ds))
      (Single.viewCount ds) (Single.downloadCount ds) (Z.of_nat (List.length (Single.tags ds)))). lia.
  - rewrite single_formula. apply spec_range.
  - apply multi_formula.
  - rewrite multi_formula. pose proof (spec_range (Text.length (Multi.description ds))
      (or_zero (Multi.viewCount ds)) (or_zero (Multi.downloadCount ds))
      (Z.of_nat (List.length (or_nil (Multi.tags ds))))). lia.
  - rewrite multi_formula. apply spec_range.
  - intros ds d Hd. rewrite !single_formula. simpl.
    change (Text.length EmptyString) with 0. apply spec_long_description. lia.
  - intros ds d Hd. rewrite !multi_formula. simpl.
    change (Text.length EmptyString) with 0. apply spec_long_description. lia.
Qed.

(** C10.  The score is never below the base of 50, so it ranges over
    [50, 100], and it reaches 100 exactly when all five bonuses apply. *)
Theorem quality_score_at_least_base :
  (forall ds : Single.dataset,
      50 <= Single.quality ds <= 100 /\
      (Single.quality ds = 100 <->
       Spec.all_bonuses (Text.length (Single.description ds)) (Single.viewCount ds)
                        (Single.downloadCount ds) (Z.of_nat (List.length (Single.tags ds))))) /\
  (forall ds : Multi.dataset,
      50 <= Multi.quality ds <= 100 /\
      (Multi.quality ds = 100 <->
       Spec.all_bonuses (Text.length (Multi.description ds)) (or_zero (Multi.viewCount ds))
                        (or_zero (Multi.downloadCount ds))
                        (Z.of_nat (List.length (or_nil (Multi.tags ds)))))).
Proof.
  split; intros ds.
  - rewrite single_formula. split; [apply spec_range | apply spec_full].
  - rewrite multi_formula. split; [apply spec_range | apply spec_full].
Qed.

(** A record with a description of 400 characters. *)
Lemma quality_score_as_specified_witness :
  Text.length Samples.long_description = 400 /\
  Single.quality (Spec.single_with_description Samples.court_record Samples.long_description) =
  Single.quality (Spec.single_with_description Samples.court_record EmptyString) + 25.
Proof.
  split; [reflexivity |].
  apply (proj1 (proj2 (proj2 quality_score_as_specified))). reflexivity.
Defined.

End ScoreFacts.

(** ** The classifier *)

Module ClassifierFacts.
Import Buckets ClassifierSpec.
Local Open Scope string_scope.

Lemma fold_push_bucket {A : Type} (categorize : A -> category) (l : list A)
      (c : categorized A) (cat : category) :
  bucket (fold_left (fun c ds => push c (categorize ds) ds) l c) cat =
  (bucket c cat ++ List.filter (fun ds => category_eqb (categorize ds) cat) l)%list.
Proof.
  revert c. induction l as [|ds l IH]; intros c; simpl.
  - now rewrite app_nil_r.
  - rewrite IH. destruct (categorize ds), cat; simpl; try reflexivity;
      now rewrite <- app_assoc.
Qed.

Lemma forEach_push_bucket {A : Type} (categorize : A -> category) (l : list A)
      (cat : category) :
  bucket (forEach_push categorize l) cat =
  List.filter (fun ds => category_eqb (categorize ds) cat) l.
Proof. unfold forEach_push. rewrite fold_push_bucket. now destruct cat. Qed.

Lemma filter_filter {A : Type} (p q : A -> bool) (l : list A) :
  List.filter q (List.filter p l) = List.filter (fun x => p x && q x) l.
Proof.
  induction l as [|x l IH]; simpl; [reflexivity |].
  destruct (p x); simpl; [destruct (q x) |]; now rewrite IH.
Qed.

Lemma category_eqb_eq (a b : category) : category_eqb a b = true <-> a = b.
Proof. destruct a, b; simpl; split; intros; congruence. Qed.

Lemma single_categorize_spec (ds : Single.dataset) :
  Single.categorize ds = single_category ds.
Proof.
  unfold Single.categorize, single_category, Spec.category_of, Single.category_text,
    Spec.category_text, law_terms_single.
  cbn [existsb]. now rewrite !orb_false_r, <- !orb_assoc.
Qed.

Lemma multi_categorize_spec (ds : Multi.dataset) :
  Multi.categorize ds = multi_category ds.
Proof.
  unfold Multi.categorize, multi_category, Spec.category_of, Multi.filter_text,
    Spec.category_text, law_terms_multi.
  cbn [existsb]. now rewrite !orb_false_r, <- !orb_assoc.
Qed.

Lemma filter_ext_bool {A : Type} (p q : A -> bool) (l : list A) :
  (forall x, p x = q x) -> List.filter p l = List.filter q l.
Proof.
  intros H. induction l as [|x l IH]; simpl; [reflexivity |]. now rewrite H, IH.
Qed.

Lemma classifies_member {A : Type} (all : list A) (relevant : A -> bool)
      (category_of : A -> category) (c : categorized A) :
  classifies all relevant category_of c ->
  forall ds cat,
    In ds (bucket c cat) <-> In ds all /\ relevant ds = true /\ category_of ds = cat.
Proof.
  intros H ds cat. rewrite H, filter_In, andb_true_iff, category_eqb_eq. tauto.
Qed.

Lemma court_first (terms : list string) (text : string) :
  In "court" terms -> Text.includes text "court" = true ->
  Spec.category_of terms text = Law.
Proof.
  intros Hin Hc. unfold Spec.category_of.
  replace (existsb (Text.includes text) terms) with true; [reflexivity |].
  symmetry. apply existsb_exists. now exists "court".
Qed.

(** C2.  In both crawlers the buckets hold exactly the records that pass
    the relevance filter, each in the single bucket of its category; the
    category is decided on the lower-cased name and description in the
    order LAW_VERIFICATION, NEWS, ATTORNEY_RESOURCE, first match wins,
    with LAW_VERIFICATION as fallback; a text with both court and news is
    LAW_VERIFICATION; a record that is not relevant is in no bucket. *)
Theorem classification_by_priority :
  (forall st : Single.TexasDataCrawler,
      classifies (Single.datasets st) Single.isLegal single_category
                 (Single.categorized (Single.filterLegalDatasets st))) /\
  (forall st : Multi.TexasMultiSourceCrawler,
      classifies (Multi.allDatasets st) Multi.isLegal multi_category
                 (Multi.categorized (Multi.filterLegalDatasets st))) /\
  (forall (A : Type) (all : list A) (relevant : A -> bool) (category_of : A -> category)
          (c : categorized A),
      classifies all relevant category_of c ->
      forall ds cat,
        In ds (bucket c cat) <-> In ds all /\ relevant ds = true /\ category_of ds = cat) /\
  (forall text : string,
      Text.includes text "court" = true -> Text.includes text "news" = true ->
      Spec.category_of law_terms_single text = Law /\
      Spec.category_of law_terms_multi text = Law).
Proof.
  split; [| split; [| split]].
  - intros st cat. simpl. rewrite forEach_push_bucket, filter_filter.
    apply filter_ext_bool. intros ds. now rewrite single_categorize_spec.
  - intros st cat. simpl. rewrite forEach_push_bucket, filter_filter.
    apply filter_ext_bool. intros ds. now rewrite multi_categorize_spec.
  - intros A all relevant category_of c H. now apply classifies_member.
  - intros text Hc _. split; apply court_first; simpl; auto.
Qed.

(** A record with court and news in its name, in the multi-source crawler. *)
Lemma classification_by_priority_witness :
  Spec.category_of law_terms_multi "court news" = Law.
Proof.
  apply (proj2 (proj2 (proj2 classification_by_priority)) "court news"); reflexivity.
Defined.

(** The buckets follow the priority order; the label column of the
    legal CSV export is computed by another chain and may differ. *)
Lemma court_news_bucket_and_label :
  Multi.isLegal Samples.court_news = true /\
  Multi.categorize Samples.court_news = Law /\
  Multi.csv_category Samples.court_news = News.
Proof. repeat split; vm_compute; reflexivity. Qed.

Lemma existsb_includes (text : string) (kws : list string) :
  existsb (fun kw => Text.includes text kw) kws = true <->
  exists kw, In kw kws /\ Spec.occurs kw text.
Proof.
  rewrite existsb_exists. split; intros [kw [Hin H]]; exists kw; split; trivial;
    now apply TextFacts.includes_iff.
Qed.

(** C6 (amended).  The single-source crawler keeps a record exactly when
    one of its 32 keywords occurs in the lower-cased concatenation of
    name, description, category and joined tags; the multi-source crawler
    keeps a record exactly when one of its 44 keywords occurs in the
    lower-cased concatenation of name and description only. *)
Theorem relevance_filter_texts :
  (forall ds : Single.dataset,
      Single.isLegal ds = true <->
      exists kw, In kw Single.legalKeywords /\
                 Spec.occurs kw (Spec.relevance_text (Single.name ds) (Single.description ds)
                                                     (Single.category ds) (Single.tags ds))) /\
  (forall ds : Multi.dataset,
      Multi.isLegal ds = true <->
      exists kw, In kw Multi.legalKeywords /\
                 Spec.occurs kw (Spec.category_text (Multi.name ds) (Multi.description ds))).
Proof.
  split; intros ds.
  - unfold Single.isLegal. apply existsb_includes.
  - unfold Multi.isLegal. apply existsb_includes.
Qed.

(** C6 as stated fails in the multi-source crawler: a keyword in the
    category of a record does not make the record relevant. *)
Lemma multi_filter_ignores_category :
  ~ (forall ds : Multi.dataset,
        Multi.isLegal ds = true <->
        exists kw, In kw Multi.legalKeywords /\
                   Spec.occurs kw (Spec.relevance_text (Multi.name ds) (Multi.description ds)
                                     (Net.or_empty (Multi.category ds))
                                     (Net.or_nil (Multi.tags ds)))).
Proof.
  intros H. specialize (H Samples.category_only).
  assert (Hno : Multi.isLegal Samples.category_only = false) by (vm_compute; reflexivity).
  rewrite Hno in H. destruct H as [_ H]. enough (false = true) by discriminate.
  apply H. exists "court". split.
  - simpl. auto.
  - exists "x  ", " ". vm_compute. reflexivity.
Qed.

End ClassifierFacts.

(** ** Reachability *)

Module ReachabilityFacts.
Import JS Net.
Local Open Scope string_scope.

Lemma tenths_rounds (q : Q) : Spec.rounded_to_tenths q (Number.tenths q).
Proof.
  unfold Spec.rounded_to_tenths, Number.tenths.
  pose proof (Qfloor_le (q * inject_Z 10 + (1 # 2))) as Hle.
  pose proof (Qlt_floor (q * inject_Z 10 + (1 # 2))) as Hlt.
  rewrite inject_Z_plus in Hlt.
  set (n := inject_Z (Qfloor (q * inject_Z 10 + (1 # 2)))) in *.
  set (x := (q * inject_Z 10)%Q) in *.
  change (inject_Z 1) with 1%Q in Hlt.
  split; lra.
Qed.

Lemma tenths_proper (p q : Q) : (p == q)%Q -> Number.tenths p = Number.tenths q.
Proof. intros H. unfold Number.tenths. now rewrite H. Qed.

(** In the multi-source crawler the rate of a non-empty sample is the
    percentage rounded to one decimal, and the rate of an empty sample is
    the number 0. *)
Lemma multi_rate_rounded (reachable total : Z) :
  (0 < total)%Z ->
  exists n : Z,
    Multi.rate_of reachable total =
      Multi.RateText (Text.show_Z (n / 10) ++ "." ++ Text.show_Z (n mod 10)) /\
    Spec.rounded_to_tenths (inject_Z reachable / inject_Z total * inject_Z 100) n.
Proof.
  intros Ht. unfold Multi.rate_of, Number.div, Number.scale, Number.toFixed1.
  replace (0 <? total)%Z with true by (symmetry; apply Z.ltb_lt; exact Ht).
  replace (total =? 0)%Z with false by (symmetry; apply Z.eqb_neq; lia).
  eexists. split; [reflexivity |].
  erewrite tenths_proper; [apply tenths_rounds |].
  now rewrite !Qred_correct.
Qed.

Lemma multi_rate_empty (reachable : Z) : Multi.rate_of reachable 0 = Multi.RateNumber 0.
Proof. reflexivity. Qed.

Lemma rate_six_of_ten :
  Multi.rate_of 6 10 = Multi.RateText "60.0" /\ Single.rate_of 6 10 = "60.0".
Proof. split; vm_compute; reflexivity. Qed.

(** C8.  The single-source crawler divides by the size of the sample
    without a guard: when the catalog lists no dataset the sample is
    empty and the reported rate is the text NaN, not 0. *)
Theorem single_rate_of_empty_sample :
  forall (fetchJSON_resource : string -> fetched unit) (browser_found withBrowser : bool),
    Single.apiStats
      (Single.run (fun _ => inr []) fetchJSON_resource browser_found withBrowser) =
    Some {| Single.reachable := 0; Single.total := 0; Single.rate := "NaN" |}.
Proof. intros. reflexivity. Qed.

(** At an address that [https.get] accepts, [checkReachability] issues
    one request, to that address; its promise is fulfilled with [true]
    exactly when the first event of the request is a response with status
    200, with [false] on a response with another status and on a transport
    error, and it is never rejected. *)
Lemma checkReachability_at_accepted_address :
  forall (https_get : string -> get_outcome) (url : string) (events : list http_event),
    https_get url = Emits events ->
    fst (Multi.checkReachability https_get url) = [url] /\
    (snd (Multi.checkReachability https_get url) = Fulfilled true <->
     exists rest, events = Response 200 :: rest) /\
    (forall statusCode rest,
        events = Response statusCode :: rest ->
        snd (Multi.checkReachability https_get url) = Fulfilled (statusCode =? 200)%Z) /\
    (forall message rest,
        events = ErrorEvent message :: rest ->
        snd (Multi.checkReachability https_get url) = Fulfilled false) /\
    (forall e, snd (Multi.checkReachability https_get url) <> Rejected e).
Proof.
  intros https_get url events Hget. unfold Multi.checkReachability. rewrite Hget. simpl.
  split; [reflexivity |]. split; [| split; [| split]].
  - destruct events as [|[code | msg] rest]; simpl.
    + split; [discriminate | intros [r H]; discriminate].
    + split.
      * intros H. injection H as H. apply Z.eqb_eq in H. subst. now exists rest.
      * intros [r H]. injection H as -> _. reflexivity.
    + split; [discriminate | intros [r H]; discriminate].
  - intros code rest ->. reflexivity.
  - intros msg rest ->. reflexivity.
  - intros e. destruct events as [|[code | msg] rest]; discriminate.
Qed.

(** The catalog address, answered with status 200 and with status 404,
    and a connection that is refused. *)
Lemma checkReachability_samples :
  Multi.checkReachability Probes.https_only "https://data.texas.gov" =
    (["https://data.texas.gov"], Fulfilled true) /\
  Multi.checkReachability (fun _ => Emits [Response 404]) "https://data.texas.gov" =
    (["https://data.texas.gov"], Fulfilled false) /\
  Multi.checkReachability (fun _ => Emits [ErrorEvent "ECONNREFUSED"]) "https://data.texas.gov" =
    (["https://data.texas.gov"], Fulfilled false).
Proof. repeat split. Qed.



End ReachabilityFacts.

(** ** The remote-control client *)

Module CDPFacts.
Import JS CDP CDPInvariant.

Lemma connected_wf : wf connected.
Proof.
  constructor; simpl; try reflexivity.
  - intros k h H. rewrite lookup_empty in H. discriminate.
  - intros h H. discriminate.
  - intros i r H. discriminate.
Qed.

Lemma send_wf (st : CDPBrowser) (m : string) (p : value) :
  wf st -> wf (snd (send st m p)).
Proof.
  intros [Hid Hpend Hun Hlen Hwire]. constructor; simpl.
  - rewrite length_app. simpl. lia.
  - intros k h H. destruct (decide (id st = k)) as [<- | Hne].
    + rewrite lookup_insert_eq in H. injection H as <-. split; [exact Hid |].
      rewrite lookup_app_r by lia. now rewrite Nat.sub_diag.
    + rewrite lookup_insert_ne in H by exact Hne.
      destruct (Hpend k h H) as [Hk Hh]. split; [exact Hk |].
      rewrite lookup_app_l; [exact Hh |]. now apply lookup_lt_Some in Hh.
  - intros h H. destruct (decide (h < length (promises st))%nat) as [Hlt | Hge].
    + rewrite lookup_app_l in H by exact Hlt.
      rewrite lookup_insert_ne by lia. now apply Hun.
    + assert (h = length (promises st)) as ->.
      { apply lookup_lt_Some in H. rewrite length_app in H. simpl in H. lia. }
      rewrite <- Hid. apply lookup_insert_eq.
  - rewrite !length_app. simpl. lia.
  - intros i r H. destruct (decide (i < length (wire st))%nat) as [Hlt | Hge].
    + rewrite lookup_app_l in H by exact Hlt. now apply Hwire.
    + assert (i = length (wire st)) as ->.
      { apply lookup_lt_Some in H. rewrite length_app in H. simpl in H. lia. }
      rewrite lookup_app_r in H by lia. rewrite Nat.sub_diag in H.
      injection H as <-. simpl. lia.
Qed.

Lemma resolve_length (ps : list (option value)) (h : nat) (v : value) :
  length (resolve ps h v) = length ps.
Proof.
  unfold resolve. destruct (ps !! h) as [[w|]|]; try reflexivity. apply length_insert.
Qed.

Lemma resolve_other (ps : list (option value)) (h h' : nat) (v : value) :
  h <> h' -> resolve ps h v !! h' = ps !! h'.
Proof.
  intros Hne. unfold resolve. destruct (ps !! h) as [[w|]|]; try reflexivity.
  now apply list_lookup_insert_ne.
Qed.

Lemma resolve_pending (ps : list (option value)) (h : nat) (v : value) :
  ps !! h = Some None -> resolve ps h v !! h = Some (Some v).
Proof.
  intros H. unfold resolve. rewrite H. apply list_lookup_insert_eq.
  now apply lookup_lt_Some in H.
Qed.

Lemma resolve_settled (ps : list (option value)) (h h' : nat) (v w : value) :
  ps !! h' = Some (Some w) -> resolve ps h v !! h' = Some (Some w).
Proof.
  intros H. destruct (decide (h = h')) as [-> | Hne].
  - unfold resolve. now rewrite H.
  - now rewrite resolve_other.
Qed.

Section Handler.
Variable JSON_parse : string -> option value.

(** The handler either leaves the state alone or resolves one pending
    promise with the payload of the message and forgets its id. *)
Lemma onmessage_cases (st st' : CDPBrowser) (data : string) :
  onmessage JSON_parse st data = inr st' ->
  exists msg, JSON_parse data = Some msg /\ msg <> Null /\
    (st' = st \/
     exists k h, prop msg "id" = inr (Some (Num k)) /\ k <> 0 /\
                 pending st !! k = Some h /\
                 st' = {| id := id st; pending := delete k (pending st); wire := wire st;
                          promises := resolve (promises st) h (payload msg) |}).
Proof.
  unfold onmessage. destruct (JSON_parse data) as [msg|]; [| discriminate].
  intros H. exists msg. split; [reflexivity |].
  destruct (prop msg "id") as [e | idv] eqn:Hid; [discriminate |].
  split; [intros ->; discriminate |].
  destruct (truthy idv) eqn:Ht; [| injection H as <-; now left].
  destruct (pending_get st idv) as [h|] eqn:Hp; [| injection H as <-; now left].
  right. destruct idv as [[| b | k | s | items | ms]|]; simpl in Hp; try discriminate.
  exists k, h. simpl in Ht. apply negb_true_iff, Z.eqb_neq in Ht.
  repeat split; trivial. now injection H as <-.
Qed.

Lemma onmessage_wf (st st' : CDPBrowser) (data : string) :
  wf st -> onmessage JSON_parse st data = inr st' -> wf st'.
Proof.
  intros Hwf H. destruct (onmessage_cases _ _ _ H) as (msg & _ & _ & [-> | Hres]);
    [exact Hwf |].
  destruct Hres as (k & h & _ & _ & Hk & ->).
  destruct Hwf as [Hid Hpend Hun Hlen Hwire].
  destruct (Hpend k h Hk) as [-> Hh].
  constructor; simpl.
  - now rewrite resolve_length.
  - intros k' h' H'. destruct (decide (1 + Z.of_nat h = k')) as [<- | Hne].
    + rewrite lookup_delete_eq in H'. discriminate.
    + rewrite lookup_delete_ne in H' by exact Hne.
      destruct (Hpend k' h' H') as [-> Hh']. split; [reflexivity |].
      rewrite resolve_other; [exact Hh' | lia].
  - intros h' H'. destruct (decide (h = h')) as [<- | Hne].
    + rewrite resolve_pending in H' by exact Hh. discriminate.
    + rewrite resolve_other in H' by exact Hne.
      rewrite lookup_delete_ne by lia. now apply Hun.
  - now rewrite resolve_length.
  - exact Hwire.
Qed.

Lemma step_wf (st st' : CDPBrowser) (ev : event) :
  wf st -> step JSON_parse st ev = inr st' -> wf st'.
Proof.
  intros Hwf H. destruct ev as [m p | data]; simpl in H.
  - injection H as <-. now apply send_wf.
  - now apply onmessage_wf with st data.
Qed.

Lemma step_settled (st st' : CDPBrowser) (ev : event) (h : nat) (w : value) :
  step JSON_parse st ev = inr st' ->
  promises st !! h = Some (Some w) -> promises st' !! h = Some (Some w).
Proof.
  intros H Hh. destruct ev as [m p | data]; simpl in H.
  - injection H as <-. simpl. rewrite lookup_app_l; [exact Hh |].
    now apply lookup_lt_Some in Hh.
  - destruct (onmessage_cases _ _ _ H) as (msg & _ & _ & [-> | Hres]); [exact Hh |].
    destruct Hres as (k & h' & _ & _ & _ & ->). simpl. now apply resolve_settled.
Qed.

Lemma answers_inv (mid : Z) (data : string) (msg : value) :
  Spec.answers JSON_parse mid (Message data) = Some msg ->
  JSON_parse data = Some msg /\ prop msg "id" = inr (Some (Num mid)).
Proof.
  simpl. destruct (JSON_parse data) as [[| b | n | s | items | ms]|]; try discriminate.
  destruct (member "id" ms) as [[| b | k | s | items | ms']|] eqn:Hm; try discriminate.
  destruct (k =? mid) eqn:Hk; [| discriminate]. apply Z.eqb_eq in Hk. subst k.
  intros H. injection H as <-. split; [reflexivity |]. simpl. now rewrite Hm.
Qed.

Lemma answers_intro (mid : Z) (data : string) (msg : value) :
  JSON_parse data = Some msg -> prop msg "id" = inr (Some (Num mid)) ->
  Spec.answers JSON_parse mid (Message data) = Some msg.
Proof.
  intros Hp Hid. simpl. rewrite Hp.
  destruct msg as [| b | n | s | items | ms]; simpl in Hid; try discriminate.
  injection Hid as Hid. rewrite Hid. now rewrite Z.eqb_refl.
Qed.

(** What one frame does to a promise that is still pending. *)
Lemma onmessage_track (st st' : CDPBrowser) (data : string) (h : nat) :
  wf st -> promises st !! h = Some None ->
  onmessage JSON_parse st data = inr st' ->
  promises st' !! h =
  Some (payload <$> Spec.answers JSON_parse (1 + Z.of_nat h) (Message data)).
Proof.
  intros Hwf Hh H.
  pose proof H as H0.
  destruct (onmessage_cases _ _ _ H) as (msg & Hparse & Hnull & [-> | Hres]).
  - (* the frame was dropped: it cannot be an answer to [h] *)
    destruct (Spec.answers JSON_parse (1 + Z.of_nat h) (Message data)) as [m|] eqn:Ha;
      [| exact Hh].
    exfalso. apply answers_inv in Ha as [Hp Hid].
    rewrite Hparse in Hp. injection Hp as <-.
    pose proof (wf_unresolved st Hwf h Hh) as Hpend.
    unfold onmessage in H0. rewrite Hparse, Hid in H0. simpl in H0.
    replace (1 + Z.of_nat h =? 0) with false in H0 by (symmetry; apply Z.eqb_neq; lia).
    simpl in H0. rewrite Hpend in H0. injection H0 as H0.
    apply (f_equal pending) in H0. simpl in H0.
    apply (f_equal (fun m => m !! (1 + Z.of_nat h))) in H0.
    rewrite lookup_delete_eq, Hpend in H0. discriminate.
  - destruct Hres as (k & h' & Hid & Hk0 & Hk & ->). cbn [promises].
    destruct (wf_pending st Hwf k h' Hk) as [-> Hh'].
    destruct (decide (h' = h)) as [-> | Hne].
    + rewrite (answers_intro _ _ _ Hparse Hid). cbn [fmap option_fmap option_map].
      now apply resolve_pending.
    + rewrite resolve_other by exact Hne.
      destruct (Spec.answers JSON_parse (1 + Z.of_nat h) (Message data)) as [m|] eqn:Ha;
        [| exact Hh].
      exfalso. apply answers_inv in Ha as [Hp Hid'].
      rewrite Hparse in Hp. injection Hp as <-. rewrite Hid in Hid'.
      injection Hid' as Heq. lia.
Qed.

Lemma run_settled (evs : list event) (st st' : CDPBrowser) (h : nat) (w : value) :
  run JSON_parse st evs = inr st' ->
  promises st !! h = Some (Some w) -> promises st' !! h = Some (Some w).
Proof.
  revert st. induction evs as [|ev evs IH]; intros st H Hh; simpl in H.
  - now injection H as <-.
  - destruct (step JSON_parse st ev) as [e | st1] eqn:Hs; [discriminate |].
    apply (IH st1 H). now apply step_settled with st ev.
Qed.

(** A pending promise is resolved by the first answer to its command. *)
Lemma run_track (evs : list event) (st st' : CDPBrowser) (h : nat) :
  wf st -> promises st !! h = Some None ->
  run JSON_parse st evs = inr st' ->
  promises st' !! h =
  Some (payload <$> Spec.first_answer JSON_parse (1 + Z.of_nat h) evs).
Proof.
  revert st. induction evs as [|ev evs IH]; intros st Hwf Hh H; simpl in H.
  - injection H as <-. exact Hh.
  - destruct (step JSON_parse st ev) as [e | st1] eqn:Hs; [discriminate |].
    pose proof (step_wf _ _ _ Hwf Hs) as Hwf1.
    destruct ev as [m p | data].
    + simpl in Hs. injection Hs as <-. simpl Spec.first_answer.
      apply (IH _ Hwf1); [| exact H]. simpl.
      rewrite lookup_app_l; [exact Hh |]. now apply lookup_lt_Some in Hh.
    + simpl in Hs. pose proof (onmessage_track _ _ _ _ Hwf Hh Hs) as Ht.
      cbn [Spec.first_answer].
      destruct (Spec.answers JSON_parse (1 + Z.of_nat h) (Message data)) as [msg|].
      * simpl in Ht. simpl. now apply run_settled with evs st1.
      * simpl in Ht. now apply (IH st1).
Qed.

Lemma run_app (a b : list event) (st : CDPBrowser) :
  run JSON_parse st (a ++ b) =
  match run JSON_parse st a with
  | inl e => inl e
  | inr st' => run JSON_parse st' b
  end.
Proof.
  revert st. induction a as [|ev a IH]; intros st; simpl; [reflexivity |].
  destruct (step JSON_parse st ev); [reflexivity | apply IH].
Qed.

Lemma step_total (st : CDPBrowser) (ev : event) :
  Spec.well_formed JSON_parse ev = true -> exists st', step JSON_parse st ev = inr st'.
Proof.
  destruct ev as [m p | data]; simpl; [eauto |].
  unfold onmessage. destruct (JSON_parse data) as [msg|]; [| discriminate].
  intros Hwf. destruct msg; try discriminate; simpl;
    repeat match goal with
           | |- context [if ?b then _ else _] => destruct b
           | |- context [match ?o with Some _ => _ | None => _ end] => destruct o
           end; eauto.
Qed.

(** Frames that parse to something other than [null] never stop a run. *)
Lemma run_total (evs : list event) (st : CDPBrowser) :
  wf st -> forallb (Spec.well_formed JSON_parse) evs = true ->
  exists st', run JSON_parse st evs = inr st' /\ wf st' /\
              length (promises st') = (length (promises st) + Spec.count_sends evs)%nat.
Proof.
  revert st. induction evs as [|ev evs IH]; intros st Hwf Hall; simpl in *.
  - exists st. split; [reflexivity | split; [exact Hwf | lia]].
  - apply andb_true_iff in Hall as [Hev Hall].
    destruct (step_total st ev Hev) as [st1 Hs]. rewrite Hs.
    pose proof (step_wf _ _ _ Hwf Hs) as Hwf1.
    destruct (IH st1 Hwf1 Hall) as (st' & Hrun & Hwf' & Hlen).
    exists st'. split; [exact Hrun | split; [exact Hwf' |]]. rewrite Hlen.
    destruct ev as [m p | data]; simpl in Hs.
    + injection Hs as <-. simpl. rewrite length_app. simpl. lia.
    + destruct (onmessage_cases _ _ _ Hs) as (msg & _ & _ & [-> | Hres]); [lia |].
      destruct Hres as (k & h & _ & _ & _ & ->). simpl. rewrite resolve_length. lia.
Qed.

Lemma run_wire (evs : list event) (st st' : CDPBrowser) :
  run JSON_parse st evs = inr st' -> exists extra, wire st' = wire st ++ extra.
Proof.
  revert st. induction evs as [|ev evs IH]; intros st H; simpl in H.
  - injection H as <-. exists []. now rewrite app_nil_r.
  - destruct (step JSON_parse st ev) as [e | st1] eqn:Hs; [discriminate |].
    destruct (IH st1 H) as [extra Hx]. destruct ev as [m p | data]; simpl in Hs.
    + injection Hs as <-. simpl in Hx. rewrite <- app_assoc in Hx. eauto.
    + destruct (onmessage_cases _ _ _ Hs) as (msg & _ & _ & [-> | Hres]); [eauto |].
      destruct Hres as (k & h & _ & _ & _ & ->). simpl in Hx. eauto.
Qed.

Lemma payload_not_null (msg : value) : msg <> Null -> payload msg <> Null.
Proof.
  intros Hm. unfold payload. destruct (prop msg "result") as [e | r]; [exact Hm |].
  unfold or_else. destruct r as [v|]; [| exact Hm].
  destruct (truthy (Some v)) eqn:Ht; [| exact Hm]. intros ->. discriminate.
Qed.

Lemma resolve_lookup (ps : list (option value)) (h h' : nat) (v w : value) :
  resolve ps h v !! h' = Some (Some w) -> w = v \/ ps !! h' = Some (Some w).
Proof.
  intros H. destruct (decide (h = h')) as [<- | Hne].
  - unfold resolve in H. destruct (ps !! h) as [[u|]|] eqn:E.
    + right. now rewrite <- H, E.
    + left. rewrite list_lookup_insert_eq in H by (now apply lookup_lt_Some in E).
      congruence.
    + right. now rewrite <- H, E.
  - right. now rewrite resolve_other in H.
Qed.

Lemma run_not_null (evs : list event) (st st' : CDPBrowser) :
  settled_not_null st -> run JSON_parse st evs = inr st' -> settled_not_null st'.
Proof.
  revert st. induction evs as [|ev evs IH]; intros st Hnn H; simpl in H.
  - now injection H as <-.
  - destruct (step JSON_parse st ev) as [e | st1] eqn:Hs; [discriminate |].
    apply (IH st1); [| exact H]. clear IH H.
    destruct ev as [m p | data]; simpl in Hs.
    + injection Hs as <-. intros h w Hh. simpl in Hh.
      destruct (decide (h < length (promises st))%nat) as [Hlt | Hge].
      * rewrite lookup_app_l in Hh by exact Hlt. now apply (Hnn h).
      * rewrite lookup_app_r in Hh by lia.
        destruct (h - length (promises st))%nat as [|n]; simpl in Hh; [discriminate |].
        rewrite lookup_nil in Hh. discriminate.
    + destruct (onmessage_cases _ _ _ Hs) as (msg & _ & Hnull & [-> | Hres]); [exact Hnn |].
      destruct Hres as (k & h' & _ & _ & _ & ->). intros h w Hh. simpl in Hh.
      apply resolve_lookup in Hh as [-> | Hh]; [now apply payload_not_null | now apply (Hnn h)].
Qed.

End Handler.

Lemma evaluate_return_value (result : value) :
  result <> Null -> evaluate_return result = inr (EvaluateSpec.result_value result).
Proof.
  intros Hn. unfold evaluate_return, EvaluateSpec.result_value.
  destruct result as [| b | n | s | items | ms]; try reflexivity. congruence.
Qed.

(** [evaluate] is a call of [send]: the promise it awaits is the next
    one, and its request is the event of the traces below. *)
Lemma evaluate_is_send (JSON_parse : string -> option value) (st : CDPBrowser)
      (expression : string) :
  fst (evaluate st expression) = length (promises st) /\
  step JSON_parse st (EvaluateSpec.evaluate_event expression) =
  inr (snd (evaluate st expression)).
Proof. split; reflexivity. Qed.

(** The value that the handler passes to the resolver is the payload of
    the message. *)
Lemma payload_is_response_payload (msg : value) :
  payload msg = Spec.response_payload msg.
Proof.
  destruct msg as [| b | n | s | items | ms]; try reflexivity.
  unfold payload, Spec.response_payload. simpl.
  destruct (member "result" ms) as [r|]; reflexivity.
Qed.

Lemma count_sends_app (a b : list event) :
  Spec.count_sends (a ++ b) = (Spec.count_sends a + Spec.count_sends b)%nat.
Proof.
  induction a as [|[m p | d] a IH]; simpl; [reflexivity | now rewrite IH | exact IH].
Qed.

(** C1.  On a connected client whose incoming frames parse to values
    other than null, the [i]-th call of [send] (counting from 0) is
    transmitted with id [1 + i], so the ids start at 1, increase strictly
    and are never reused; and the promise of each call is resolved with
    the payload of the first frame, after the call, whose [id] field is the
    id of the call (and stays pending if there is none).  In particular,
    when two calls in a row are answered in the reverse order, the promise
    of each call holds the result carried by the frame with its own id. *)
Theorem correlation_ids_and_responses :
  forall (JSON_parse : string -> option value) (evs : list event),
    forallb (Spec.well_formed JSON_parse) evs = true ->
    exists st,
      run JSON_parse connected evs = inr st /\
      length (wire st) = Spec.count_sends evs /\
      (forall i r, wire st !! i = Some r -> req_id r = 1 + Z.of_nat i) /\
      (forall pre m p post,
          evs = (pre ++ Send m p :: post)%list ->
          wire st !! Spec.count_sends pre =
            Some {| req_id := 1 + Z.of_nat (Spec.count_sends pre);
                    req_method := m; req_params := p |} /\
          promises st !! Spec.count_sends pre =
            Some (Spec.response_payload <$>
                  Spec.first_answer JSON_parse (1 + Z.of_nat (Spec.count_sends pre)) post)) /\
      (forall pre m1 p1 m2 p2 d1 d2 ms1 ms2 r1 r2 post,
          evs = (pre ++ Send m1 p1 :: Send m2 p2 :: Message d2 :: Message d1 :: post)%list ->
          JSON_parse d1 = Some (Obj ms1) ->
          member "id" ms1 = Some (Num (1 + Z.of_nat (Spec.count_sends pre))) ->
          member "result" ms1 = Some r1 -> truthy (Some r1) = true ->
          JSON_parse d2 = Some (Obj ms2) ->
          member "id" ms2 = Some (Num (2 + Z.of_nat (Spec.count_sends pre))) ->
          member "result" ms2 = Some r2 -> truthy (Some r2) = true ->
          promises st !! Spec.count_sends pre = Some (Some r1) /\
          promises st !! S (Spec.count_sends pre) = Some (Some r2)).
Proof.
  intros JSON_parse evs Hall.
  destruct (run_total JSON_parse evs connected connected_wf Hall) as (st & Hrun & Hwf & Hlen).
  exists st.
  assert (Hgen : forall pre m p post,
             evs = (pre ++ Send m p :: post)%list ->
             wire st !! Spec.count_sends pre =
               Some {| req_id := 1 + Z.of_nat (Spec.count_sends pre);
                       req_method := m; req_params := p |} /\
             promises st !! Spec.count_sends pre =
               Some (Spec.response_payload <$>
                     Spec.first_answer JSON_parse (1 + Z.of_nat (Spec.count_sends pre)) post)).
  { intros pre m p post ->.
    rewrite forallb_app in Hall. apply andb_true_iff in Hall as [Hpre _].
    destruct (run_total JSON_parse pre connected connected_wf Hpre) as (st1 & Hrun1 & Hwf1 & Hlen1).
    simpl in Hlen1.
    rewrite run_app, Hrun1 in Hrun. simpl in Hrun.
    pose proof (send_wf st1 m p Hwf1) as Hwf2.
    set (st2 := snd (send st1 m p)) in *.
    assert (Hk : promises st2 !! Spec.count_sends pre = Some None).
    { subst st2. simpl. rewrite lookup_app_r by lia. now rewrite Hlen1, Nat.sub_diag. }
    split.
    + destruct (run_wire JSON_parse post st2 st Hrun) as [extra ->].
      subst st2. simpl. rewrite <- app_assoc.
      rewrite lookup_app_r by (rewrite (wf_wire_length st1 Hwf1); lia).
      rewrite (wf_wire_length st1 Hwf1), Hlen1, Nat.sub_diag. simpl.
      rewrite (wf_id st1 Hwf1), Hlen1. reflexivity.
    + rewrite (run_track JSON_parse post st2 st _ Hwf2 Hk Hrun).
      destruct (Spec.first_answer JSON_parse _ post) as [msg|]; simpl; [| reflexivity].
      now rewrite payload_is_response_payload. }
  split; [exact Hrun |]. split; [| split; [| split; [exact Hgen |]]].
  - rewrite (wf_wire_length st Hwf), Hlen. reflexivity.
  - exact (wf_wire st Hwf).
  - intros pre m1 p1 m2 p2 d1 d2 ms1 ms2 r1 r2 post Hevs Hd1 Hid1 Hr1 Ht1 Hd2 Hid2 Hr2 Ht2.
    set (k := Spec.count_sends pre) in *.
    assert (Hne : (2 + Z.of_nat k =? 1 + Z.of_nat k) = false) by (apply Z.eqb_neq; lia).
    split.
    + destruct (Hgen pre m1 p1 _ Hevs) as [_ Hp]. fold k in Hp. rewrite Hp.
      cbn [Spec.first_answer Spec.answers]. rewrite Hd2, Hid2, Hne, Hd1, Hid1, Z.eqb_refl.
      cbn [fmap option_fmap option_map Spec.response_payload]. now rewrite Hr1, Ht1.
    + assert (Hevs' : evs = ((pre ++ [Send m1 p1]) ++
                             Send m2 p2 :: Message d2 :: Message d1 :: post)%list)
        by (rewrite <- app_assoc; exact Hevs).
      destruct (Hgen _ m2 p2 _ Hevs') as [_ Hp].
      rewrite count_sends_app in Hp. cbn [Spec.count_sends] in Hp. fold k in Hp.
      replace (k + 1)%nat with (S k) in Hp by lia.
      replace (1 + Z.of_nat (S k)) with (2 + Z.of_nat k) in Hp by lia.
      rewrite Hp.
      cbn [Spec.first_answer Spec.answers]. rewrite Hd2, Hid2, Z.eqb_refl.
      cbn [fmap option_fmap option_map Spec.response_payload]. now rewrite Hr2, Ht2.
Qed.

(** Two commands in flight, answered in the reverse order: the first
    promise holds the result of the frame with id 1, which arrives last. *)
Lemma correlation_ids_and_responses_witness :
  exists st,
    run MiniJSON.parse connected Frames.reordered = inr st /\
    length (wire st) = 2%nat /\
    (forall i r, wire st !! i = Some r -> req_id r = 1 + Z.of_nat i) /\
    promises st !! 0%nat = Some (Some (Str "first")) /\
    promises st !! 1%nat = Some (Some (Str "second")).
Proof.
  destruct (correlation_ids_and_responses MiniJSON.parse Frames.reordered eq_refl)
    as (st & Hrun & Hlen & Hids & _ & Hswap).
  exists st. split; [exact Hrun |]. split; [exact Hlen |]. split; [exact Hids |].
  apply (Hswap [] "Runtime.enable" (Obj []) "Page.enable" (Obj [])
               (MiniJSON.response 1 (MiniJSON.quoted "first"))
               (MiniJSON.response 2 (MiniJSON.quoted "second"))
               [("id", Num 1); ("result", Str "first")]
               [("id", Num 2); ("result", Str "second")]
               (Str "first") (Str "second") []); reflexivity.
Defined.

(** Each of the two promises holds its own payload. *)
Lemma reordered_answers :
  exists st,
    run MiniJSON.parse connected Frames.reordered = inr st /\
    map req_id (wire st) = [1; 2] /\
    promises st = [Some (Str "first"); Some (Str "second")].
Proof. eexists. split; [vm_compute; reflexivity |]. split; reflexivity. Qed.

(** C4.  A frame that is not JSON makes [JSON.parse] throw inside the
    handler, which has no [try]; the exception leaves the handler and the
    frames that follow, answers to pending commands included, are not
    handled. *)
Theorem malformed_frame_escapes :
  forall (JSON_parse : string -> option value) (st : CDPBrowser) (data : string),
    JSON_parse data = None ->
    onmessage JSON_parse st data = inl SyntaxError /\
    forall rest, run JSON_parse st (Message data :: rest) = inl SyntaxError.
Proof.
  intros JSON_parse st data Hp.
  assert (H : onmessage JSON_parse st data = inl SyntaxError).
  { unfold onmessage. now rewrite Hp. }
  split; [exact H |]. intros rest. simpl. now rewrite H.
Qed.

(** An HTML error page arrives while a command is pending. *)
Lemma malformed_frame_escapes_witness :
  MiniJSON.parse "<html>502 Bad Gateway</html>" = None /\
  run MiniJSON.parse (snd (send connected "Page.enable" (Obj [])))
      [Message "<html>502 Bad Gateway</html>";
       Message (MiniJSON.response 1 (MiniJSON.quoted "first"))] = inl SyntaxError.
Proof.
  split; [reflexivity |].
  apply (malformed_frame_escapes MiniJSON.parse
           (snd (send connected "Page.enable" (Obj [])))
           "<html>502 Bad Gateway</html>").
  reflexivity.
Defined.

(** The answer that follows the error page is never delivered. *)
Lemma garbled_run_stops :
  run MiniJSON.parse connected Frames.garbled = inl SyntaxError.
Proof. reflexivity. Qed.

(** C5 (amended).  The promise of [evaluate] is settled when the answer
    to its request arrives, with the [.result.value] field of the
    payload when the field is present and with [undefined] when it is
    absent; it is never rejected. *)
Theorem evaluate_returns_value_or_undefined :
  forall (JSON_parse : string -> option value) (pre post : list event) (expression : string),
    forallb (Spec.well_formed JSON_parse)
            (pre ++ EvaluateSpec.evaluate_event expression :: post) = true ->
    exists st,
      run JSON_parse connected (pre ++ EvaluateSpec.evaluate_event expression :: post) = inr st /\
      evaluate_promise st (Spec.count_sends pre) =
        match Spec.first_answer JSON_parse (1 + Z.of_nat (Spec.count_sends pre)) post with
        | Some msg => Some (inr (EvaluateSpec.result_value (payload msg)))
        | None => None
        end.
Proof.
  intros JSON_parse pre post expression Hall.
  destruct (run_total JSON_parse _ connected connected_wf Hall) as (st & Hrun & Hwf & Hlen).
  exists st. split; [exact Hrun |].
  pose proof Hall as Hall'.
  rewrite forallb_app in Hall'. apply andb_true_iff in Hall' as [Hpre _].
  destruct (run_total JSON_parse pre connected connected_wf Hpre) as (st1 & Hrun1 & Hwf1 & Hlen1).
  simpl in Hlen1.
  assert (Hnn : settled_not_null st).
  { eapply run_not_null; [| exact Hrun]. intros h w H. discriminate. }
  rewrite run_app, Hrun1 in Hrun. unfold EvaluateSpec.evaluate_event in Hrun. simpl in Hrun.
  match type of Hrun with run _ ?s _ = _ => set (st2 := s) in * end.
  assert (Hwf2 : wf st2) by (apply (send_wf st1 _ _ Hwf1)).
  assert (Hk : promises st2 !! Spec.count_sends pre = Some None).
  { subst st2. simpl. rewrite lookup_app_r by lia. now rewrite Hlen1, Nat.sub_diag. }
  pose proof (run_track JSON_parse post st2 st _ Hwf2 Hk Hrun) as Ht.
  unfold evaluate_promise. rewrite Ht.
  destruct (Spec.first_answer JSON_parse (1 + Z.of_nat (Spec.count_sends pre)) post) as [msg|] eqn:E;
    simpl; [| reflexivity].
  rewrite evaluate_return_value; [reflexivity |].
  apply (Hnn (Spec.count_sends pre)). rewrite Ht. reflexivity.
Qed.

(** The browser answers 42 to [6 * 7]. *)
Lemma evaluate_returns_value_or_undefined_witness :
  exists st,
    run MiniJSON.parse connected ([] ++ EvaluateSpec.evaluate_event "6 * 7" ::
                                  [Message (MiniJSON.response 1 "{ }")]) = inr st /\
    evaluate_promise st (Spec.count_sends []) =
      match Spec.first_answer MiniJSON.parse (1 + Z.of_nat (Spec.count_sends []))
                              [Message (MiniJSON.response 1 "{ }")] with
      | Some msg => Some (inr (EvaluateSpec.result_value (payload msg)))
      | None => None
      end.
Proof.
  apply (evaluate_returns_value_or_undefined MiniJSON.parse [] _ "6 * 7"). reflexivity.
Defined.

Lemma evaluate_forty_two :
  exists st,
    run MiniJSON.parse connected Frames.evaluated = inr st /\
    evaluate_promise st 0 = Some (inr (Some (Num 42))).
Proof. eexists. split; [vm_compute; reflexivity | reflexivity]. Qed.

(** C5 as stated fails: when the answer carries no value, [evaluate]
    returns [undefined], not the text of the specification. *)
Lemma evaluate_without_value :
  exists st,
    run MiniJSON.parse connected Frames.valueless = inr st /\
    evaluate_promise st 0 = Some (inr None) /\
    evaluate_promise st 0 <> Some (inr (Some (Str "no value"))).
Proof.
  eexists. split; [vm_compute; reflexivity |]. split; [reflexivity | discriminate].
Qed.

End CDPFacts.

(** ** Failures of the listing request *)

Module PipelineFacts.
Import JS Net Pipeline.
Local Open Scope string_scope.

Lemma get_key_in {A : Type} (key : string) (entries : list (string * A)) :
  In key (Multi.keys entries) -> exists v, Multi.get_key key entries = Some v.
Proof.
  induction entries as [|[k v] entries IH]; simpl; [tauto |].
  intros [-> | Hin].
  - rewrite String.eqb_refl. eauto.
  - destruct (String.eqb k key); eauto.
Qed.

Lemma get_key_set_key_ne {A : Type} (key other : string) (v : A)
      (entries : list (string * A)) :
  key <> other ->
  Multi.get_key other (Multi.set_key key v entries) = Multi.get_key other entries.
Proof.
  intros Hne. induction entries as [|[k w] entries IH]; simpl.
  - destruct (String.eqb_spec key other); [contradiction | reflexivity].
  - destruct (String.eqb_spec k key) as [-> | Hk]; simpl.
    + destruct (String.eqb_spec key other); [contradiction | reflexivity].
    + destruct (String.eqb k other); [reflexivity | exact IH].
Qed.

Section World.
Variable fetchJSON_views : string -> fetched (list item).
Variable fetchJSON_resource : string -> fetched unit.
Variable https_get : string -> http_event.
Variable browser_found : bool.
Variable browser_links : string -> fetched (list Multi.link).

Lemma crawlSocrata_failure (st : Multi.TexasMultiSourceCrawler) (source : string) (limit : Z)
      (config : Multi.source_config) (e : exn) :
  Multi.get_key source Multi.TEXAS_DATA_SOURCES = Some config ->
  fetchJSON_views (Multi.show_null (Multi.api config) ++ "?limit=" ++ Text.show_Z limit) = inl e ->
  Multi.crawlSocrata fetchJSON_views st source limit =
  (Multi.set_reachability st source false, []).
Proof. intros Hc Hf. unfold Multi.crawlSocrata. now rewrite Hc, Hf. Qed.

(** [crawlGeneric] on a configured source returns normally and touches
    neither the records nor the reachability of the catalog source. *)
Lemma crawlGeneric_frame (s : Multi.TexasMultiSourceCrawler) (src : string) :
  In src (Multi.keys Multi.TEXAS_DATA_SOURCES) -> src <> "data.texas.gov" ->
  exists s' l,
    Multi.crawlGeneric https_get browser_links s src = inr (s', l) /\
    Multi.browser s' = Multi.browser s /\
    Multi.get_key "data.texas.gov" (Multi.datasets s') =
      Multi.get_key "data.texas.gov" (Multi.datasets s) /\
    Multi.apiReachability s' !! "data.texas.gov" =
      Multi.apiReachability s !! "data.texas.gov".
Proof.
  intros Hin Hne. destruct (get_key_in _ _ Hin) as [config Hc].
  unfold Multi.crawlGeneric. rewrite Hc.
  destruct (negb (Multi.await_checkReachability https_get (Multi.baseUrl config))).
  { do 2 eexists. split; [reflexivity |]. simpl. now rewrite lookup_insert_ne. }
  destruct (negb (Multi.browser _)).
  { do 2 eexists. split; [reflexivity |]. simpl. now rewrite lookup_insert_ne. }
  destruct (browser_links src).
  { do 2 eexists. split; [reflexivity |]. simpl. now rewrite lookup_insert_ne. }
  do 2 eexists. split; [reflexivity |]. simpl.
  rewrite get_key_set_key_ne by exact Hne. now rewrite lookup_insert_ne.
Qed.

Lemma crawl_loop (l : list string) (s : Multi.TexasMultiSourceCrawler) :
  (forall src, In src l -> In src (Multi.keys Multi.TEXAS_DATA_SOURCES)) ->
  exists s',
    fold_left (Multi.crawl_source https_get browser_links) l (inr s) = inr s' /\
    Multi.browser s' = Multi.browser s /\
    Multi.get_key "data.texas.gov" (Multi.datasets s') =
      Multi.get_key "data.texas.gov" (Multi.datasets s) /\
    Multi.apiReachability s' !! "data.texas.gov" =
      Multi.apiReachability s !! "data.texas.gov".
Proof.
  revert s. induction l as [|src l IH]; intros s Hl; cbn [fold_left].
  - exists s. repeat split.
  - assert (Hl' : forall x, In x l -> In x (Multi.keys Multi.TEXAS_DATA_SOURCES))
      by (intros x Hx; apply Hl; now right).
    unfold Multi.crawl_source at 2.
    destruct (String.eqb_spec src "data.texas.gov") as [-> | Hne].
    + now apply IH.
    + destruct (crawlGeneric_frame s src (Hl src (or_introl eq_refl)) Hne)
        as (s1 & found & -> & Hb & Hd & Hr).
      destruct (IH s1 Hl') as (s' & Hf & Hb' & Hd' & Hr').
      exists s'. rewrite Hf. repeat split; congruence.
Qed.

(** After a failed listing request [crawlAllSources] still returns. *)
Lemma crawlAllSources_after_failure (st : Multi.TexasMultiSourceCrawler) (e : exn) :
  fetchJSON_views "https://data.texas.gov/api/views.json?limit=100" = inl e ->
  exists s',
    Multi.crawlAllSources fetchJSON_views https_get browser_links st = inr s' /\
    Multi.get_key "data.texas.gov" (Multi.datasets s') =
      Multi.get_key "data.texas.gov" (Multi.datasets st) /\
    Multi.apiReachability s' !! "data.texas.gov" = Some false.
Proof.
  intros Hf. unfold Multi.crawlAllSources.
  rewrite (crawlSocrata_failure st "data.texas.gov" 100 _ e eq_refl Hf). simpl fst.
  destruct (Multi.browser (Multi.set_reachability st "data.texas.gov" false)).
  - destruct (crawl_loop (Multi.keys Multi.TEXAS_DATA_SOURCES)
                         (Multi.set_reachability st "data.texas.gov" false))
      as (s' & Hl & _ & Hd & Hr); [auto |].
    exists s'. split; [exact Hl |]. split; [exact Hd |].
    rewrite Hr. simpl. apply lookup_insert_eq.
  - eexists. split; [reflexivity |]. split; [reflexivity |]. simpl. apply lookup_insert_eq.
Qed.

(** The second loop of [measureAPIReachability] gives every other
    source an entry in the reachability table and leaves the rest alone. *)
Lemma measure_sources_frame (l : list string) (s : Multi.TexasMultiSourceCrawler)
      (counts : Z * Z) :
  (forall src, In src l -> In src (Multi.keys Multi.TEXAS_DATA_SOURCES)) ->
  forall s' counts',
    fold_left (Multi.measure_source https_get) l (s, counts) = (s', counts') ->
    Multi.datasets s' = Multi.datasets s /\
    Multi.legalDatasets s' = Multi.legalDatasets s /\
    Multi.apiReachability s' !! "data.texas.gov" = Multi.apiReachability s !! "data.texas.gov" /\
    (forall d, is_Some (Multi.apiReachability s !! d) -> is_Some (Multi.apiReachability s' !! d)) /\
    (forall src, In src l -> src <> "data.texas.gov" ->
                 is_Some (Multi.apiReachability s' !! src)).
Proof.
  revert s counts. induction l as [|src l IH]; intros s [reachable total] Hl s' counts';
    cbn [fold_left].
  - intros H. injection H as <- <-. repeat split; try tauto. intros src [].
  - assert (Hl' : forall x, In x l -> In x (Multi.keys Multi.TEXAS_DATA_SOURCES))
      by (intros x Hx; apply Hl; now right).
    unfold Multi.measure_source at 2.
    destruct (String.eqb_spec src "data.texas.gov") as [-> | Hne].
    + intros H. destruct (IH _ _ Hl' _ _ H) as (Hd & Hg & Hr & Hk & Hs).
      repeat split; trivial. intros x [<- | Hx] Hx'; [contradiction | now apply Hs].
    + destruct (get_key_in _ _ (Hl src (or_introl eq_refl))) as [config ->].
      intros H. destruct (IH _ _ Hl' _ _ H) as (Hd & Hg & Hr & Hk & Hs).
      simpl in Hd, Hg, Hr, Hk. repeat split; trivial.
      * rewrite Hr. now rewrite lookup_insert_ne.
      * intros d Hd'. apply Hk. destruct (decide (src = d)) as [-> | Hsd].
        -- rewrite lookup_insert_eq. eauto.
        -- now rewrite lookup_insert_ne.
      * intros x [<- | Hx] Hx'; [| now apply Hs].
        apply Hk. rewrite lookup_insert_eq. eauto.
Qed.

Lemma single_run_after_failure (withBrowser : bool) (e : exn) :
  fetchJSON_views "https://data.texas.gov/api/views.json?limit=100" = inl e ->
  let o := Single.run fetchJSON_views fetchJSON_resource browser_found withBrowser in
  Single.caught o = Some e /\ Single.executed o = [Discover] /\
  Single.final o = Single.new /\
  Single.apiStats o = None /\ Single.report o = None /\ Single.written o = [].
Proof.
  intros Hf. unfold Single.run, Single.discoverDatasetsViaAPI.
  change ("https://data.texas.gov/api/views.json?limit=" ++ Text.show_Z 100)
    with "https://data.texas.gov/api/views.json?limit=100".
  rewrite Hf. repeat split.
Qed.

End World.

Section Run.
Variable fetchJSON_views : string -> fetched (list item).
Variable fetchJSON_resource : string -> fetched unit.
Variable https_get : string -> http_event.
Variable initBrowser_outcome : Multi.browser_outcome.
Variable browser_links : string -> fetched (list Multi.link).
Variable writeFileSync : string -> option exn.

(** The multi-source crawler contains a failed listing request: unless
    the process has ended inside [initBrowser], the run goes on through
    the other sources and through the filter, measure and score steps, and
    reaches the export step, whose outcome is that of its file writes. *)
Lemma multi_run_after_failure (withBrowser : bool) (e : exn) :
  fetchJSON_views "https://data.texas.gov/api/views.json?limit=100" = inl e ->
  (if withBrowser then initBrowser_outcome else Multi.BrowserNull) <> Multi.BodyNotJSON ->
  let o := Multi.run fetchJSON_views fetchJSON_resource https_get initBrowser_outcome
                     browser_links writeFileSync withBrowser in
  Multi.uncaught o = None /\
  Multi.executed o =
    ((if withBrowser then [InitBrowser] else []) ++ [Discover; Filter; Measure; Score; Export])%list /\
  Multi.get_key "data.texas.gov" (Multi.datasets (Multi.final o)) = None /\
  Multi.apiReachability (Multi.final o) !! "data.texas.gov" = Some false /\
  (forall src, In src (Multi.keys Multi.TEXAS_DATA_SOURCES) ->
               is_Some (Multi.apiReachability (Multi.final o) !! src)) /\
  (Multi.written o, Multi.caught o) =
    Multi.exportAll writeFileSync "/Users/owner/texas_multi_source_data.json".
Proof.
  intros Hf Hb. unfold Multi.run.
  destruct (Multi.exportAll writeFileSync _) as [files failure].
  destruct (if withBrowser then initBrowser_outcome else Multi.BrowserNull);
    [| | contradiction];
    (match goal with |- context [Multi.crawlAllSources _ _ _ ?s] => set (st0 := s) end;
     destruct (crawlAllSources_after_failure fetchJSON_views https_get browser_links st0 e Hf)
       as (s1 & -> & Hd1 & Hr1);
     destruct (Multi.measureAPIReachability _ _ _) as [st3 stats] eqn:Hm;
     unfold Multi.measureAPIReachability, Multi.measure_sources in Hm;
     destruct (fold_left _ _ _) as [s' [reachable total]] eqn:Hfold;
     injection Hm as <- _;
     destruct (measure_sources_frame (fun _ => inr []) (fun _ => inr tt) https_get (fun _ => inr [])
                 _ _ _ (fun src H => H) _ _ Hfold) as (Hd & _ & Hr & Hk & Hs);
     simpl in Hd, Hr, Hk; cbn zeta; simpl;
     split; [reflexivity |]; split; [now destruct withBrowser |];
     split; [now rewrite Hd, Hd1 |]; split; [now rewrite Hr |];
     split; [| reflexivity];
     intros src Hin; destruct (String.eqb_spec src "data.texas.gov") as [-> | Hne];
     [rewrite Hr, Hr1; eauto | now apply Hs]).
Qed.

End Run.

(** C7.  In the single-source crawler a failure of the listing request is
    not contained: [discoverDatasetsViaAPI] has no handler of its own, the
    error reaches the handler at the end of [run], and the run ends there:
    the object is as the constructor left it, no later step is started,
    there are no reachability figures and no scores, and no file is
    written. *)
Theorem listing_failure_ends_single_run :
  forall (fetchJSON_views : string -> fetched (list item))
         (fetchJSON_resource : string -> fetched unit)
         (browser_found withBrowser : bool) (e : exn),
    fetchJSON_views "https://data.texas.gov/api/views.json?limit=100" = inl e ->
    let o := Single.run fetchJSON_views fetchJSON_resource browser_found withBrowser in
    Single.caught o = Some e /\ Single.executed o = [Discover] /\
    Single.final o = Single.new /\
    Single.apiStats o = None /\ Single.report o = None /\ Single.written o = [].
Proof.
  intros. eapply single_run_after_failure; eassumption.
Qed.

(** The catalog refuses the connection. *)
Lemma listing_failure_ends_single_run_witness :
  let o := Single.run (fun _ => inl (NetworkError "ECONNREFUSED")) (fun _ => inr tt)
                      false false in
  Single.caught o = Some (NetworkError "ECONNREFUSED") /\
  Single.executed o = [Discover] /\
  Single.final o = Single.new /\
  Single.apiStats o = None /\ Single.report o = None /\ Single.written o = [].
Proof.
  apply (listing_failure_ends_single_run
           (fun _ => inl (NetworkError "ECONNREFUSED")) (fun _ => inr tt) false false
           (NetworkError "ECONNREFUSED")).
  reflexivity.
Defined.

(** The same failure in the multi-source crawler, with a browser attached
    and a disk that takes every file: the catalog is marked unreachable and
    the run reaches the export step. *)
Lemma multi_listing_failure_goes_on :
  let o := Multi.run (fun _ => inl (NetworkError "ECONNREFUSED")) (fun _ => inr tt)
                     (fun _ => Response 200) Multi.BrowserSet (fun _ => inr [])
                     (fun _ => None) true in
  Multi.caught o = None /\ Multi.uncaught o = None /\
  Multi.executed o = [InitBrowser; Discover; Filter; Measure; Score; Export] /\
  Multi.apiReachability (Multi.final o) !! "data.texas.gov" = Some false /\
  Multi.written o = [ "/Users/owner/texas_multi_source_data.json";
                      "/Users/owner/texas_all_sources_datasets.csv";
                      "/Users/owner/texas_legal_datasets.csv" ].
Proof.
  destruct (multi_run_after_failure (fun _ => inl (NetworkError "ECONNREFUSED"))
              (fun _ => inr tt) (fun _ => Response 200) Multi.BrowserSet (fun _ => inr [])
              (fun _ => None) true (NetworkError "ECONNREFUSED") eq_refl)
    as (Hu & He & _ & Hr & _ & Hw); [discriminate |].
  cbv zeta. split; [exact (f_equal snd Hw) |]. split; [exact Hu |]. split; [exact He |].
  split; [exact Hr | exact (f_equal fst Hw)].
Qed.

(** A disk that refuses the first file: the error is caught by the
    handler of [run] and nothing is written. *)
Lemma multi_export_failure_is_caught :
  let o := Multi.run (fun _ => inr []) (fun _ => inr tt)
                     (fun _ => Response 200) Multi.BrowserNull (fun _ => inr [])
                     (fun _ => Some (NetworkError "EACCES")) false in
  Multi.caught o = Some (NetworkError "EACCES") /\
  Multi.executed o = [Discover; Filter; Measure; Score; Export] /\
  Multi.written o = [].
Proof. vm_compute. repeat split. Qed.

(** A tab listing that is not JSON ends the process inside [initBrowser]. *)
Lemma multi_initBrowser_can_end_the_process :
  let o := Multi.run (fun _ => inr []) (fun _ => inr tt)
                     (fun _ => Response 200) Multi.BodyNotJSON (fun _ => inr [])
                     (fun _ => None) true in
  Multi.uncaught o = Some SyntaxError /\ Multi.executed o = [InitBrowser] /\
  Multi.written o = [] /\ Multi.closed o = false.
Proof. repeat split. Qed.

End PipelineFacts.

(** ** More on the remote-control client *)

Module ProtocolFacts.
Import JS CDP CDPInvariant CDPFacts.

Section Handler.
Variable JSON_parse : string -> option value.

(** The handler changes neither the wire, nor the counter, nor the
    number of promises. *)
Lemma onmessage_frame (st st' : CDPBrowser) (data : string) :
  onmessage JSON_parse st data = inr st' ->
  wire st' = wire st /\ id st' = id st /\
  length (promises st') = length (promises st).
Proof.
  intros H. destruct (onmessage_cases _ _ _ _ H) as (msg & _ & _ & [-> | Hres]); [auto |].
  destruct Hres as (k & h & _ & _ & _ & ->). simpl. now rewrite resolve_length.
Qed.

(** A trace cut at one of its [send] calls. *)
Lemma run_cut (pre post : list event) (m : string) (p : value) :
  forallb (Spec.well_formed JSON_parse) (pre ++ Send m p :: post) = true ->
  exists st1 st,
    run JSON_parse connected pre = inr st1 /\ wf st1 /\
    length (promises st1) = Spec.count_sends pre /\
    run JSON_parse (snd (send st1 m p)) post = inr st /\ wf st /\
    run JSON_parse connected (pre ++ Send m p :: post) = inr st /\
    length (promises st) = Spec.count_sends (pre ++ Send m p :: post).
Proof.
  intros Hall.
  destruct (run_total JSON_parse _ connected connected_wf Hall) as (st & Hrun & Hwf & Hlen).
  pose proof Hall as Hall'. rewrite forallb_app in Hall'.
  apply andb_true_iff in Hall' as [Hpre _].
  destruct (run_total JSON_parse pre connected connected_wf Hpre) as (st1 & Hrun1 & Hwf1 & Hlen1).
  exists st1, st. pose proof Hrun as Hrun'.
  rewrite run_app, Hrun1 in Hrun'. simpl in Hrun'.
  repeat match goal with |- _ /\ _ => split end; trivial.
Qed.

(** X1.  After any run the pending table holds exactly the commands
    that no frame has answered yet: the entry of a command is there as
    long as no frame after the call carried its id, and it is removed by
    the first one that does; no other key is ever in the table. *)
Theorem pending_table_is_the_unanswered_commands :
  forall (evs : list event),
    forallb (Spec.well_formed JSON_parse) evs = true ->
    exists st,
      run JSON_parse connected evs = inr st /\
      (forall mid h, pending st !! mid = Some h ->
                     mid = 1 + Z.of_nat h /\ (h < Spec.count_sends evs)%nat) /\
      (forall pre m p post,
          evs = (pre ++ Send m p :: post)%list ->
          (pending st !! (1 + Z.of_nat (Spec.count_sends pre)) = Some (Spec.count_sends pre) <->
           Spec.first_answer JSON_parse (1 + Z.of_nat (Spec.count_sends pre)) post = None)).
Proof.
  intros evs Hall.
  destruct (run_total JSON_parse _ connected connected_wf Hall) as (st & Hrun & Hwf & Hlen).
  exists st. split; [exact Hrun |]. split.
  - intros mid h Hp. destruct (wf_pending st Hwf mid h Hp) as [-> Hh].
    split; [reflexivity |]. apply lookup_lt_Some in Hh. simpl in Hlen. lia.
  - intros pre m p post ->.
    destruct (run_cut pre post m p Hall) as (st1 & st' & Hrun1 & Hwf1 & Hlen1 & Hrun2 & _ & Hrun' & _).
    rewrite Hrun in Hrun'. injection Hrun' as <-.
    assert (Hk : promises (snd (send st1 m p)) !! Spec.count_sends pre = Some None).
    { simpl. rewrite lookup_app_r by lia. now rewrite Hlen1, Nat.sub_diag. }
    pose proof (run_track JSON_parse post _ st _ (send_wf st1 m p Hwf1) Hk Hrun2) as Ht.
    split.
    + intros Hp. destruct (wf_pending st Hwf _ _ Hp) as [_ Hn].
      rewrite Hn in Ht.
      destruct (Spec.first_answer JSON_parse _ post); [discriminate | reflexivity].
    + intros Hnone. rewrite Hnone in Ht. now apply (wf_unresolved st Hwf).
Qed.

(** X2.  A frame that is delivered a second time changes nothing. *)
Theorem repeated_frame_is_ignored :
  forall (st st' : CDPBrowser) (data : string),
    onmessage JSON_parse st data = inr st' ->
    onmessage JSON_parse st' data = inr st'.
Proof.
  intros st st' data H.
  destruct (onmessage_cases _ _ _ _ H) as (msg & Hp & Hnull & [-> | Hres]); [exact H |].
  destruct Hres as (k & h & Hid & Hk0 & Hk & ->).
  unfold onmessage. rewrite Hp, Hid. simpl.
  replace (k =? 0) with false by (symmetry; now apply Z.eqb_neq).
  simpl. now rewrite lookup_delete_eq.
Qed.

End Handler.

Lemma pending_table_is_the_unanswered_commands_witness :
  exists st,
    run MiniJSON.parse connected Frames.reordered = inr st /\
    (forall mid h, pending st !! mid = Some h ->
                   mid = 1 + Z.of_nat h /\ (h < Spec.count_sends Frames.reordered)%nat) /\
    (forall pre m p post,
        Frames.reordered = (pre ++ Send m p :: post)%list ->
        (pending st !! (1 + Z.of_nat (Spec.count_sends pre)) = Some (Spec.count_sends pre) <->
         Spec.first_answer MiniJSON.parse (1 + Z.of_nat (Spec.count_sends pre)) post = None)).
Proof.
  apply (pending_table_is_the_unanswered_commands MiniJSON.parse Frames.reordered).
  reflexivity.
Defined.

Lemma repeated_frame_is_ignored_witness :
  onmessage MiniJSON.parse
    {| id := 2; pending := ∅; wire := wire (snd (send connected "Page.enable" (Obj [])));
       promises := [Some (Str "first")] |}
    (MiniJSON.response 1 (MiniJSON.quoted "first")) =
  inr {| id := 2; pending := ∅; wire := wire (snd (send connected "Page.enable" (Obj [])));
         promises := [Some (Str "first")] |}.
Proof.
  apply (repeated_frame_is_ignored MiniJSON.parse
           (snd (send connected "Page.enable" (Obj [])))).
  vm_compute. reflexivity.
Defined.

End ProtocolFacts.

Module NavigateFacts.
Import JS CDP CDPInvariant CDPFacts ProtocolFacts Navigate.

Section Handler.
Variable JSON_parse : string -> option value.
Variable url : string.

Lemma onmessage_total (st : CDPBrowser) (data : string) :
  Spec.well_formed JSON_parse (Message data) = true ->
  exists st', onmessage JSON_parse st data = inr st'.
Proof. intros H. exact (step_total JSON_parse st (Message data) H). Qed.

Lemma deliver_returned (frames : list string) (st : CDPBrowser) (v : value) :
  frames_ok JSON_parse frames = true ->
  exists st', deliver JSON_parse url (Returned v) st frames = inr (Returned v, st') /\
              wire st' = wire st.
Proof.
  unfold frames_ok.
  revert st. induction frames as [|data frames IH]; intros st Hok; simpl in *.
  - now exists st.
  - apply andb_true_iff in Hok as [Hd Hok].
    destruct (onmessage_total st data Hd) as [st1 H1]. rewrite H1.
    destruct (IH st1 Hok) as (st' & -> & Hw). exists st'. split; [reflexivity |].
    rewrite Hw. now apply onmessage_frame in H1 as [-> _].
Qed.

Lemma deliver_navigate (frames : list string) (st : CDPBrowser) (h : nat) :
  wf st -> promises st !! h = Some None -> frames_ok JSON_parse frames = true ->
  exists st',
    deliver JSON_parse url (AwaitNavigate h) st frames =
      inr (match after_answer JSON_parse (1 + Z.of_nat h) frames with
           | Some (msg, _) => Returned (payload msg)
           | None => AwaitNavigate h
           end, st') /\
    wire st' = wire st.
Proof.
  unfold frames_ok.
  revert st. induction frames as [|data frames IH]; intros st Hwf Hh Hok; simpl in *.
  - now exists st.
  - apply andb_true_iff in Hok as [Hd Hok].
    destruct (onmessage_total st data Hd) as [st1 H1]. rewrite H1.
    pose proof (onmessage_track JSON_parse _ _ _ _ Hwf Hh H1) as Ht.
    pose proof (onmessage_wf JSON_parse _ _ _ Hwf H1) as Hwf1.
    pose proof (onmessage_frame JSON_parse _ _ _ H1) as (Hw1 & _ & _).
    cbn [Spec.answers] in Ht.
    destruct (match JSON_parse data with
              | Some (Obj ms) => _ | _ => None end) as [msg|] eqn:Ha;
      cbn [fmap option_fmap option_map] in Ht.
    + cbn [resume]. rewrite Ht.
      destruct (deliver_returned frames st1 (payload msg) Hok) as (st' & -> & Hw).
      exists st'. split; [reflexivity | congruence].
    + cbn [resume]. rewrite Ht.
      destruct (IH st1 Hwf1 Ht Hok) as (st' & -> & Hw).
      exists st'. split; [reflexivity | congruence].
Qed.

Lemma deliver_page (frames : list string) (st : CDPBrowser) (h : nat) (mid : Z) :
  wf st -> promises st !! h = Some None -> id st = mid + 2 ->
  frames_ok JSON_parse frames = true ->
  exists st',
    deliver JSON_parse url (AwaitPage h) st frames =
      inr (match after_answer JSON_parse (1 + Z.of_nat h) frames with
           | None => AwaitPage h
           | Some (_, frames2) =>
               match after_answer JSON_parse (mid + 2) frames2 with
               | None => AwaitNavigate (length (promises st))
               | Some (msg, _) => Returned (payload msg)
               end
           end, st') /\
    wire st' =
      wire st ++ match after_answer JSON_parse (1 + Z.of_nat h) frames with
                 | None => []
                 | Some _ => skipn 2 (requests mid url)
                 end.
Proof.
  unfold frames_ok.
  revert st. induction frames as [|data frames IH]; intros st Hwf Hh Hid Hok; simpl in *.
  - exists st. now rewrite app_nil_r.
  - apply andb_true_iff in Hok as [Hd Hok].
    destruct (onmessage_total st data Hd) as [st1 H1]. rewrite H1.
    pose proof (onmessage_track JSON_parse _ _ _ _ Hwf Hh H1) as Ht.
    pose proof (onmessage_wf JSON_parse _ _ _ Hwf H1) as Hwf1.
    pose proof (onmessage_frame JSON_parse _ _ _ H1) as (Hw1 & Hid1 & Hlen1).
    cbn [Spec.answers] in Ht.
    destruct (match JSON_parse data with
              | Some (Obj ms) => _ | _ => None end) as [msg|] eqn:Ha;
      cbn [fmap option_fmap option_map] in Ht.
    + cbn [resume]. rewrite Ht. cbn [send].
      match goal with |- context [deliver _ _ _ ?s frames] => set (st2 := s) end.
      assert (Hwf2 : wf st2) by (apply (send_wf st1 _ _ Hwf1)).
      assert (Hh2 : promises st2 !! length (promises st1) = Some None).
      { subst st2. simpl. rewrite lookup_app_r by lia. now rewrite Nat.sub_diag. }
      assert (Heq : 1 + Z.of_nat (length (promises st1)) = mid + 2)
        by (rewrite <- Hid, <- Hid1; symmetry; apply (wf_id st1 Hwf1)).
      destruct (deliver_navigate frames st2 _ Hwf2 Hh2 Hok) as (st' & Hdel & Hw).
      rewrite Heq in Hdel. rewrite Hdel.
      exists st'. rewrite <- Hlen1.
      split; [reflexivity |]. rewrite Hw. subst st2. simpl. rewrite Hw1.
      rewrite Hid1, Hid. reflexivity.
    + cbn [resume]. rewrite Ht.
      destruct (IH st1 Hwf1 Ht (eq_trans Hid1 Hid) Hok) as (st' & -> & Hw).
      exists st'. rewrite Hlen1. split; [reflexivity | congruence].
Qed.

Lemma deliver_runtime (frames : list string) (st : CDPBrowser) (h : nat) (mid : Z) :
  wf st -> promises st !! h = Some None -> id st = mid + 1 ->
  frames_ok JSON_parse frames = true ->
  exists st',
    deliver JSON_parse url (AwaitRuntime h) st frames =
      inr (match after_answer JSON_parse (1 + Z.of_nat h) frames with
           | None => AwaitRuntime h
           | Some (_, frames1) =>
               match after_answer JSON_parse (mid + 1) frames1 with
               | None => AwaitPage (length (promises st))
               | Some (_, frames2) =>
                   match after_answer JSON_parse (mid + 2) frames2 with
                   | None => AwaitNavigate (S (length (promises st)))
                   | Some (msg, _) => Returned (payload msg)
                   end
               end
           end, st') /\
    wire st' =
      wire st ++ match after_answer JSON_parse (1 + Z.of_nat h) frames with
                 | None => []
                 | Some (_, frames1) =>
                     match after_answer JSON_parse (mid + 1) frames1 with
                     | None => firstn 1 (skipn 1 (requests mid url))
                     | Some _ => skipn 1 (requests mid url)
                     end
                 end.
Proof.
  unfold frames_ok.
  revert st. induction frames as [|data frames IH]; intros st Hwf Hh Hid Hok; simpl in *.
  - exists st. now rewrite app_nil_r.
  - apply andb_true_iff in Hok as [Hd Hok].
    destruct (onmessage_total st data Hd) as [st1 H1]. rewrite H1.
    pose proof (onmessage_track JSON_parse _ _ _ _ Hwf Hh H1) as Ht.
    pose proof (onmessage_wf JSON_parse _ _ _ Hwf H1) as Hwf1.
    pose proof (onmessage_frame JSON_parse _ _ _ H1) as (Hw1 & Hid1 & Hlen1).
    cbn [Spec.answers] in Ht.
    destruct (match JSON_parse data with
              | Some (Obj ms) => _ | _ => None end) as [msg|] eqn:Ha;
      cbn [fmap option_fmap option_map] in Ht.
    + cbn [resume]. rewrite Ht. cbn [send].
      match goal with |- context [deliver _ _ _ ?s frames] => set (st2 := s) end.
      assert (Hwf2 : wf st2) by (apply (send_wf st1 _ _ Hwf1)).
      assert (Hh2 : promises st2 !! length (promises st1) = Some None).
      { subst st2. simpl. rewrite lookup_app_r by lia. now rewrite Nat.sub_diag. }
      assert (Hid2 : id st2 = mid + 2) by (subst st2; simpl; lia).
      assert (Heq : 1 + Z.of_nat (length (promises st1)) = mid + 1)
        by (rewrite <- Hid, <- Hid1; symmetry; apply (wf_id st1 Hwf1)).
      assert (Hl2 : length (promises st2) = S (length (promises st1)))
        by (subst st2; simpl; rewrite length_app; simpl; lia).
      destruct (deliver_page frames st2 _ mid Hwf2 Hh2 Hid2 Hok) as (st' & Hdel & Hw).
      rewrite Heq, Hl2 in Hdel. rewrite Hdel. rewrite Heq in Hw.
      exists st'. rewrite <- Hlen1.
      split; [reflexivity |]. rewrite Hw. subst st2. simpl. rewrite Hw1.
      rewrite <- app_assoc. rewrite Hid1, Hid.
      destruct (after_answer JSON_parse (mid + 1) frames); reflexivity.
    + cbn [resume]. rewrite Ht.
      destruct (IH st1 Hwf1 Ht (eq_trans Hid1 Hid) Hok) as (st' & -> & Hw).
      exists st'. rewrite Hlen1. split; [reflexivity | congruence].
Qed.

End Handler.

(** X3.  [navigate] issues its three commands one after the other:
    [Page.enable] goes out only once a frame has answered
    [Runtime.enable], [Page.navigate] only once a later frame has answered
    [Page.enable], and the call returns the payload of the first frame
    after that which answers [Page.navigate].  The requests carry three
    consecutive ids; nothing else is sent. *)
Theorem navigate_sends_in_sequence :
  forall (JSON_parse : string -> option value) (url : string)
         (evs : list event) (st : CDPBrowser) (frames : list string),
    forallb (Spec.well_formed JSON_parse) evs = true ->
    run JSON_parse connected evs = inr st ->
    frames_ok JSON_parse frames = true ->
    exists st',
      deliver JSON_parse url (fst (navigate st)) (snd (navigate st)) frames =
        inr (progress JSON_parse (id st) (length (promises st)) frames, st') /\
      wire st' =
        wire st ++ firstn (sent (progress JSON_parse (id st) (length (promises st)) frames))
                          (requests (id st) url).
Proof.
  intros JSON_parse url evs st frames Hall Hrun Hok.
  destruct (run_total JSON_parse evs connected connected_wf Hall) as (st0 & Hrun0 & Hwf & _).
  rewrite Hrun in Hrun0. injection Hrun0 as <-.
  unfold navigate. cbn [send fst snd].
  match goal with |- context [deliver _ _ _ ?s frames] => set (st1 := s) end.
  assert (Hwf1 : wf st1) by (apply (send_wf st _ _ Hwf)).
  assert (Hh1 : promises st1 !! length (promises st) = Some None).
  { subst st1. simpl. rewrite lookup_app_r by lia. now rewrite Nat.sub_diag. }
  assert (Hid1 : id st1 = id st + 1) by reflexivity.
  assert (Hl1 : length (promises st1) = S (length (promises st)))
    by (subst st1; simpl; rewrite length_app; simpl; lia).
  destruct (deliver_runtime JSON_parse url frames st1 _ (id st) Hwf1 Hh1 Hid1 Hok)
    as (st' & Hdel & Hw).
  rewrite <- (wf_id st Hwf) in Hdel, Hw. rewrite Hl1 in Hdel. rewrite Hdel.
  exists st'. unfold progress.
  replace (length (promises st) + 1)%nat with (S (length (promises st))) by lia.
  replace (length (promises st) + 2)%nat with (S (S (length (promises st)))) by lia.
  split; [reflexivity |]. rewrite Hw. subst st1. simpl. rewrite <- app_assoc.
  destruct (after_answer JSON_parse (id st) frames) as [[m1 f1]|]; [| reflexivity].
  destruct (after_answer JSON_parse (id st + 1) f1) as [[m2 f2]|]; [| reflexivity].
  destruct (after_answer JSON_parse (id st + 2) f2) as [[m3 f3]|]; reflexivity.
Qed.

(** The three answers arrive in order, with a stray frame in between. *)
Lemma navigate_sends_in_sequence_witness :
  exists st',
    deliver MiniJSON.parse "https://data.texas.gov/dataset/abcd-1234"
            (fst (navigate connected)) (snd (navigate connected))
            [ MiniJSON.response 1 "{}"; MiniJSON.response 7 "{}";
              MiniJSON.response 2 "{}"; MiniJSON.response 3 (MiniJSON.quoted "frame-1") ] =
      inr (progress MiniJSON.parse (id connected) (length (promises connected))
             [ MiniJSON.response 1 "{}"; MiniJSON.response 7 "{}";
               MiniJSON.response 2 "{}"; MiniJSON.response 3 (MiniJSON.quoted "frame-1") ],
           st') /\
    wire st' =
      wire connected ++
      firstn (sent (progress MiniJSON.parse (id connected) (length (promises connected))
                      [ MiniJSON.response 1 "{}"; MiniJSON.response 7 "{}";
                        MiniJSON.response 2 "{}";
                        MiniJSON.response 3 (MiniJSON.quoted "frame-1") ]))
             (requests (id connected) "https://data.texas.gov/dataset/abcd-1234").
Proof.
  apply (navigate_sends_in_sequence MiniJSON.parse _ [] connected); reflexivity.
Defined.

(** An answer to [Page.enable] that comes before the answer to
    [Runtime.enable] is lost: the navigation then waits for ever. *)
Lemma early_answer_is_lost :
  progress MiniJSON.parse 1 0
    [ MiniJSON.response 2 "{}"; MiniJSON.response 1 "{}"; MiniJSON.response 3 "{}" ] =
  AwaitPage 1.
Proof. vm_compute. reflexivity. Qed.

End NavigateFacts.

(** ** Deep metadata *)

Module DeepFacts.
Import JS Net Deep.
Local Open Scope string_scope.

Lemma member_snoc (key : string) (v : value) (members : list (string * value)) :
  member key (members ++ [(key, v)]) = Some v.
Proof. unfold member. rewrite fold_left_app. simpl. now rewrite String.eqb_refl. Qed.

Lemma member_replaced (key : string) (v : value) (members : list (string * value))
      (acc acc' : option value) :
  (acc' = None -> acc = None) -> (acc' <> None -> acc = Some v) ->
  let step := fun (a : option value) (kv : string * value) =>
                if String.eqb (fst kv) key then Some (snd kv) else a in
  let after := fold_left step members acc' in
  let replaced :=
    fold_left step
      (map (fun kv => if String.eqb (fst kv) key then (fst kv, v) else kv) members) acc in
  (after = None -> replaced = None) /\ (after <> None -> replaced = Some v).
Proof.
  revert acc acc'. induction members as [|[k w] members IH]; intros acc acc' H1 H2; simpl.
  - split; assumption.
  - destruct (String.eqb k key) eqn:E; simpl; rewrite E.
    + apply IH; [discriminate | reflexivity].
    + apply IH; assumption.
Qed.

(** Reading a member back after the assignment. *)
Lemma member_set_member (key : string) (v : value) (members : list (string * value)) :
  member key (set_member key v members) = Some v.
Proof.
  unfold set_member. destruct (member key members) as [w|] eqn:E.
  - destruct (member_replaced key v members None None) as [_ H]; try tauto.
    apply H. unfold member in E. rewrite E. discriminate.
  - apply member_snoc.
Qed.

Section Browser.
Variable page_summary : nat -> string -> fetched (list (string * value)).

Lemma extract_loop_ids (ids : list string) (i : nat) (acc : list value) :
  map (fun v => opt_prop (Some v) "id") (extract_loop page_summary i ids acc) =
  (map (fun v => opt_prop (Some v) "id") acc ++
   map (fun dsId => Some (Str dsId)) (summarised page_summary i ids))%list.
Proof.
  revert i acc. induction ids as [|dsId ids IH]; intros i acc; simpl.
  - now rewrite app_nil_r.
  - destruct (page_summary i dsId) as [e | parsed].
    + apply IH.
    + rewrite IH, map_app. simpl. rewrite member_set_member.
      now rewrite <- app_assoc.
Qed.

Lemma summarised_sublist (ids : list string) (i : nat) :
  sublist (summarised page_summary i ids) ids.
Proof.
  revert i. induction ids as [|dsId ids IH]; intros i; simpl; [constructor |].
  destruct (page_summary i dsId); [apply sublist_cons | apply sublist_skip]; apply IH.
Qed.

End Browser.

(** X4.  [extractDeepMetadata] returns nothing without a browser.  With
    one it visits at most the first ten ids, a page that fails is skipped
    and the pages after it are still visited, and each summary that is
    kept carries the id of its dataset, in the order of the ids. *)
Theorem deep_metadata_of_first_ten :
  forall (page_summary : nat -> string -> fetched (list (string * value)))
         (st : Single.TexasDataCrawler) (datasetIds : list string),
    (Single.browser st = false ->
     extractDeepMetadata page_summary st datasetIds = []) /\
    (Single.browser st = true ->
     map (fun v => opt_prop (Some v) "id")
         (extractDeepMetadata page_summary st datasetIds) =
     map (fun dsId => Some (Str dsId))
         (summarised page_summary 0 (firstn 10 datasetIds))) /\
    sublist (summarised page_summary 0 (firstn 10 datasetIds)) datasetIds /\
    (length (extractDeepMetadata page_summary st datasetIds) <= 10)%nat.
Proof.
  intros page_summary st datasetIds. unfold extractDeepMetadata.
  assert (Hsub : sublist (summarised page_summary 0 (firstn 10 datasetIds))
                         (firstn 10 datasetIds)) by apply summarised_sublist.
  split; [| split; [| split]].
  - now intros ->.
  - intros ->. now rewrite extract_loop_ids.
  - etransitivity; [exact Hsub |]. apply sublist_take.
  - destruct (Single.browser st); simpl; [| lia].
    rewrite <- (length_map (fun v => opt_prop (Some v) "id")), extract_loop_ids.
    simpl. rewrite length_map. apply sublist_length in Hsub.
    rewrite length_firstn in Hsub. lia.
Qed.

End DeepFacts.

(** ** The CSV exports *)

Module CSVFacts.
Import CSV.
Local Open Scope string_scope.

Lemma escape_well_quoted (s : string) : well_quoted (escape s) = true.
Proof.
  induction s as [|c s IH]; simpl; [reflexivity |].
  destruct (Ascii.eqb c quote) eqn:E; simpl.
  - change (Ascii.eqb quote quote) with true. simpl. exact IH.
  - rewrite E. exact IH.
Qed.

Lemma unescape_escape (s : string) : unescape (escape s) = Some s.
Proof.
  induction s as [|c s IH]; simpl; [reflexivity |].
  destruct (Ascii.eqb c quote) eqn:E; simpl.
  - change (Ascii.eqb quote quote) with true. simpl. rewrite IH.
    apply Ascii.eqb_eq in E. now subst c.
  - rewrite E, IH. reflexivity.
Qed.

(** X5.  The name cell of [exportToCSV] and of [exportCSV] holds the name
    with every quote doubled, between two quotes: reading the cell back
    gives the name again, whatever characters the name has. *)
Theorem name_cell_reads_back :
  (forall ds : Single.dataset,
      exists cell, nth 1 (row ds) EmptyString = quoted cell /\
                   well_quoted cell = true /\ unescape cell = Some (Single.name ds)) /\
  (forall ds : Multi.dataset,
      exists cell, nth 0 (source_row ds) EmptyString = quoted cell /\
                   well_quoted cell = true /\ unescape cell = Some (Multi.name ds)).
Proof.
  split; intros ds; eexists; (split; [reflexivity |]);
    split; [apply escape_well_quoted | apply unescape_escape
           | apply escape_well_quoted | apply unescape_escape].
Qed.

Lemma escape_quote_free (s : string) : quote_free s = true -> escape s = s.
Proof.
  induction s as [|c s IH]; simpl; [reflexivity |].
  intros H. apply andb_true_iff in H as [Hc Hs]. apply negb_true_iff in Hc.
  rewrite Hc. now rewrite IH.
Qed.

Lemma substring0_app (p r : string) : substring0 (String.length p) (p ++ r) = p.
Proof.
  induction p as [|c p IH]; simpl.
  - destruct r; reflexivity.
  - rewrite ?TextFacts.append_cons. simpl. now rewrite IH.
Qed.

Lemma escape_app (p r : string) : escape (p ++ r) = escape p ++ escape r.
Proof.
  induction p as [|c p IH]; [reflexivity |].
  rewrite TextFacts.append_cons. cbn [escape]. destruct (Ascii.eqb c quote);
    rewrite ?TextFacts.append_cons; now rewrite IH.
Qed.

Lemma append_assoc (a b c : string) : (a ++ b) ++ c = a ++ (b ++ c).
Proof.
  induction a as [|x a IH]; [reflexivity |].
  rewrite !TextFacts.append_cons. now rewrite IH.
Qed.

Lemma length_snoc (p : string) (c : ascii) :
  String.length (p ++ String c EmptyString) = S (String.length p).
Proof.
  induction p as [|x p IH]; [reflexivity |].
  rewrite TextFacts.append_cons. simpl. now rewrite IH.
Qed.

Lemma lone_quote_not_well_quoted (p : string) :
  quote_free p = true ->
  well_quoted (p ++ String quote EmptyString) = false /\
  unescape (p ++ String quote EmptyString) = None.
Proof.
  induction p as [|c p IH]; intros H.
  - split; reflexivity.
  - simpl in H. apply andb_true_iff in H as [Hc Hp]. apply negb_true_iff in Hc.
    rewrite TextFacts.append_cons. simpl. rewrite Hc.
    destruct (IH Hp) as [-> ->]. split; reflexivity.
Qed.

(** X6.  The description cells and the name cell of the legal export
    are cut after the quotes were doubled.  When the character just
    before the cut is a quote that follows text without quotes, the cut
    falls between the two quotes of its pair: the cell ends in a single
    quote and no longer reads back. *)
Theorem cut_cell_can_split_a_pair :
  forall (n : nat) (before after : string),
    quote_free before = true -> String.length before = n ->
    cut_cell (S n) (before ++ String quote after) = before ++ String quote EmptyString /\
    well_quoted (cut_cell (S n) (before ++ String quote after)) = false /\
    unescape (cut_cell (S n) (before ++ String quote after)) = None.
Proof.
  intros n before after Hq Hn.
  assert (Hcut : cut_cell (S n) (before ++ String quote after) =
                 before ++ String quote EmptyString).
  { unfold cut_cell. rewrite escape_app, (escape_quote_free before Hq).
    change (escape (String quote after))
      with (String quote (String quote (escape after))).
    change (String quote (String quote (escape after)))
      with (String quote EmptyString ++ String quote (escape after)).
    rewrite <- append_assoc, <- Hn, <- (length_snoc before quote). apply substring0_app. }
  rewrite Hcut. split; [reflexivity |]. now apply lone_quote_not_well_quoted.
Qed.

(** A description of 499 letters, a quote and more text, in [exportToCSV]. *)
Lemma cut_cell_can_split_a_pair_witness :
  quote_free (string_of_list_ascii (repeat "a"%char 499)) = true /\
  well_quoted (cut_cell 500 (string_of_list_ascii (repeat "a"%char 499) ++
                             String quote "quoted")) = false.
Proof.
  split; [reflexivity |].
  apply (cut_cell_can_split_a_pair 499 (string_of_list_ascii (repeat "a"%char 499)) "quoted");
    reflexivity.
Defined.

End CSVFacts.

(** ** Sampling the reachability *)

Module MeasureFacts.
Import JS Net.
Local Open Scope string_scope.

Lemma count_loop {A : Type} (ok : A -> bool) (l : list A) (r0 : Z) :
  fold_left (fun r x => if ok x then r + 1 else r) l r0 =
  r0 + Z.of_nat (length (List.filter ok l)).
Proof.
  revert r0. induction l as [|x l IH]; intros r0; simpl; [lia |].
  rewrite IH. destruct (ok x); simpl; lia.
Qed.

Lemma filter_length_le {A : Type} (ok : A -> bool) (l : list A) :
  (length (List.filter ok l) <= length l)%nat.
Proof. induction l as [|x l IH]; simpl; [lia |]. destruct (ok x); simpl; lia. Qed.

Lemma filter_all {A : Type} (ok : A -> bool) (l : list A) :
  length (List.filter ok l) = length l <-> forallb ok l = true.
Proof.
  induction l as [|x l IH]; simpl; [tauto |].
  pose proof (filter_length_le ok l). destruct (ok x); simpl.
  - rewrite <- IH. lia.
  - split; [lia | discriminate].
Qed.

(** X7.  The single-source crawler probes the first twenty datasets and
    no other: the sample size is the smaller of 20 and the number of
    datasets, the count of reachable ones lies between 0 and the sample
    size and reaches it exactly when every probe of the sample succeeds,
    and datasets after the twentieth do not change the result. *)
Theorem single_sample_of_twenty :
  forall (fetchJSON_resource : string -> fetched unit) (st : Single.TexasDataCrawler),
    let stats := Single.measureAPIReachability fetchJSON_resource st in
    Single.total stats = Z.min 20 (Z.of_nat (length (Single.datasets st))) /\
    0 <= Single.reachable stats <= Single.total stats /\
    (Single.reachable stats = Single.total stats <->
     forallb (Single.probe fetchJSON_resource) (firstn 20 (Single.datasets st)) = true) /\
    (forall more,
        (20 <= length (Single.datasets st))%nat ->
        Single.measureAPIReachability fetchJSON_resource
          {| Single.datasets := Single.datasets st ++ more;
             Single.metadata := Single.metadata st;
             Single.legalDatasets := Single.legalDatasets st;
             Single.categorized := Single.categorized st;
             Single.browser := Single.browser st |} = stats).
Proof.
  intros fetchJSON_resource st. unfold Single.measureAPIReachability. cbn zeta.
  cbn [Single.total Single.reachable Single.datasets].
  set (n := length (Single.datasets st)).
  assert (Hn : Z.to_nat (Z.min 20 (Z.of_nat n)) = Nat.min 20 n) by lia.
  rewrite Hn, count_loop.
  assert (Hlen : length (firstn (Nat.min 20 n) (Single.datasets st)) = Nat.min 20 n).
  { rewrite length_firstn. subst n. lia. }
  pose proof (filter_length_le (Single.probe fetchJSON_resource)
                (firstn (Nat.min 20 n) (Single.datasets st))) as Hle.
  rewrite Hlen in Hle.
  split; [reflexivity |]. split; [lia |]. split.
  - rewrite <- filter_all.
    replace (firstn 20 (Single.datasets st)) with (firstn (Nat.min 20 n) (Single.datasets st)).
    + rewrite Hlen. lia.
    + destruct (Nat.le_ge_cases 20 n).
      * now rewrite Nat.min_l.
      * rewrite Nat.min_r by assumption. subst n.
        now rewrite !firstn_all2 by lia.
  - intros more Hmore. subst n. rewrite length_app.
    replace (Z.min 20 (Z.of_nat (length (Single.datasets st) + length more)))
      with (Z.min 20 (Z.of_nat (length (Single.datasets st)))) by lia.
    rewrite Hn, count_loop.
    replace (Nat.min 20 (length (Single.datasets st))) with 20%nat by lia.
    now rewrite take_app_le by exact Hmore.
Qed.

Section World.
Variable fetchJSON_resource : string -> fetched unit.
Variable https_get : string -> http_event.

Lemma measure_datasets_counts (st : Multi.TexasMultiSourceCrawler) :
  exists r, Multi.measure_datasets fetchJSON_resource st =
            (r, Z.of_nat (length (match Multi.get_key "data.texas.gov" (Multi.datasets st) with
                                  | Some l => firstn 10 l
                                  | None => []
                                  end))) /\
            0 <= r <= Z.of_nat (length (match Multi.get_key "data.texas.gov" (Multi.datasets st) with
                                        | Some l => firstn 10 l
                                        | None => []
                                        end)).
Proof.
  unfold Multi.measure_datasets.
  generalize (match Multi.get_key "data.texas.gov" (Multi.datasets st) with
              | Some l => firstn 10 l
              | None => []
              end).
  intros l.
  assert (H : forall r0 t0, exists r,
             fold_left
               (fun '(reachable, total) ds =>
                  if Multi.probe fetchJSON_resource ds
                  then ((reachable + 1)%Z, (total + 1)%Z) else (reachable, (total + 1)%Z))
               l (r0, t0) = (r, t0 + Z.of_nat (length l)) /\
             r0 <= r <= r0 + Z.of_nat (length l)).
  { induction l as [|ds l IH]; intros r0 t0; simpl.
    - exists r0. split; [f_equal; lia | lia].
    - destruct (Multi.probe fetchJSON_resource ds).
      + destruct (IH (r0 + 1) (t0 + 1)) as (r & -> & Hr). exists r. split; [f_equal; lia | lia].
      + destruct (IH r0 (t0 + 1)) as (r & -> & Hr). exists r. split; [f_equal; lia | lia]. }
  destruct (H 0 0) as (r & Hr & Hb). exists r. split; [exact Hr | lia].
Qed.

(** The number of sources of a list other than the catalog. *)
Lemma measure_sources_counts (l : list string) (s : Multi.TexasMultiSourceCrawler)
      (r t : Z) :
  exists s' r',
    fold_left (Multi.measure_source https_get) l (s, (r, t)) =
      (s', (r', t + Z.of_nat (length (List.filter
                                       (fun src => negb (String.eqb src "data.texas.gov")) l)))) /\
    r <= r' <= r + Z.of_nat (length (List.filter
                                       (fun src => negb (String.eqb src "data.texas.gov")) l)).
Proof.
  revert s r t. induction l as [|src l IH]; intros s r t; cbn [fold_left].
  - exists s, r. simpl. split; [do 2 f_equal; lia | lia].
  - unfold Multi.measure_source at 2. cbn [List.filter].
    destruct (String.eqb src "data.texas.gov"); cbn [negb].
    + apply IH.
    + destruct (Multi.get_key src Multi.TEXAS_DATA_SOURCES) as [config|].
      * cbv zeta.
        destruct (Multi.await_checkReachability https_get (Multi.baseUrl config)).
        -- destruct (IH (Multi.set_reachability s src true) (r + 1) (t + 1)) as (s' & r' & -> & Hr).
           exists s', r'. cbn [length]. split; [do 2 f_equal; lia | lia].
        -- destruct (IH (Multi.set_reachability s src false) r (t + 1)) as (s' & r' & -> & Hr).
           exists s', r'. cbn [length]. split; [do 2 f_equal; lia | lia].
      * destruct (IH s r (t + 1)) as (s' & r' & -> & Hr).
        exists s', r'. cbn [length]. split; [do 2 f_equal; lia | lia].
Qed.

(** Once the table holds the outcome of the probe of a source, later
    rounds keep it; a round for the source writes it. *)
Lemma measure_sources_table (l : list string) (s s' : Multi.TexasMultiSourceCrawler)
      (c c' : Z * Z) (src : string) (config : Multi.source_config) :
  fold_left (Multi.measure_source https_get) l (s, c) = (s', c') ->
  Multi.get_key src Multi.TEXAS_DATA_SOURCES = Some config ->
  src <> "data.texas.gov" ->
  (In src l \/
   Multi.apiReachability s !! src =
     Some (Multi.await_checkReachability https_get (Multi.baseUrl config))) ->
  Multi.apiReachability s' !! src =
    Some (Multi.await_checkReachability https_get (Multi.baseUrl config)).
Proof.
  revert s c. induction l as [|x l IH]; intros s [r t] Hf Hc Hne Hin; cbn [fold_left] in Hf.
  - injection Hf as <- _. destruct Hin as [[] | H]. exact H.
  - unfold Multi.measure_source at 2 in Hf.
    destruct (String.eqb_spec x "data.texas.gov") as [-> | Hx].
    + apply (IH _ _ Hf Hc Hne). destruct Hin as [[<- | H] | H]; [contradiction | now left | now right].
    + destruct (Multi.get_key x Multi.TEXAS_DATA_SOURCES) as [cfg|] eqn:Hcfg.
      * apply (IH _ _ Hf Hc Hne).
        destruct (String.eqb_spec x src) as [-> | Hxs].
        -- right. rewrite Hc in Hcfg. injection Hcfg as <-. simpl. apply lookup_insert_eq.
        -- destruct Hin as [[<- | H] | H]; [contradiction | now left |].
           right. simpl. now rewrite lookup_insert_ne.
      * apply (IH _ _ Hf Hc Hne).
        destruct Hin as [[<- | H] | H]; [congruence | now left | now right].
Qed.

End World.

(** X8.  The multi-source crawler always counts its thirteen other
    sources next to at most ten datasets of the catalog: the sample size
    lies between 13 and 23, the count of reachable ones between 0 and the
    sample size, and the rate is always a text (the branch for an empty
    sample is never taken). *)
Theorem multi_sample_is_never_empty :
  forall (fetchJSON_resource : string -> fetched unit) (https_get : string -> http_event)
         (st : Multi.TexasMultiSourceCrawler),
    let stats := snd (Multi.measureAPIReachability fetchJSON_resource https_get st) in
    13 <= Multi.total stats <= 23 /\
    0 <= Multi.reachable stats <= Multi.total stats /\
    Multi.rate stats =
      Multi.RateText (Number.toFixed1
                        (Number.scale (Number.div (Multi.reachable stats) (Multi.total stats)) 100)).
Proof.
  intros fetchJSON_resource https_get st. unfold Multi.measureAPIReachability, Multi.measure_sources.
  destruct (measure_datasets_counts fetchJSON_resource st) as (r & -> & Hr).
  match goal with |- context [Z.of_nat (length ?l)] => set (sample := l) in * end.
  assert (Hs : (length sample <= 10)%nat).
  { subst sample. destruct (Multi.get_key _ _); simpl; [| lia]. rewrite length_firstn. lia. }
  destruct (measure_sources_counts https_get (Multi.keys Multi.TEXAS_DATA_SOURCES) st r
              (Z.of_nat (length sample))) as (s' & r' & -> & Hr').
  change (length (List.filter (fun src => negb (String.eqb src "data.texas.gov"))
                              (Multi.keys Multi.TEXAS_DATA_SOURCES))) with 13%nat in *.
  cbn [snd Multi.total Multi.reachable Multi.rate].
  split; [lia |]. split; [lia |].
  unfold Multi.rate_of. replace (0 <? _)%Z with true; [reflexivity |].
  symmetry. apply Z.ltb_lt. lia.
Qed.

(** X9.  After [measureAPIReachability] the reachability table holds,
    for every source other than the catalog, the outcome of the probe of
    its base URL; the entry of the catalog is the one written by the
    crawl. *)
Theorem measured_table_holds_the_probes :
  forall (fetchJSON_resource : string -> fetched unit) (https_get : string -> http_event)
         (st : Multi.TexasMultiSourceCrawler),
    let st' := fst (Multi.measureAPIReachability fetchJSON_resource https_get st) in
    (forall src config,
        Multi.get_key src Multi.TEXAS_DATA_SOURCES = Some config ->
        src <> "data.texas.gov" ->
        Multi.apiReachability st' !! src =
          Some (Multi.on_event (https_get (Multi.baseUrl config)))) /\
    Multi.apiReachability st' !! "data.texas.gov" =
      Multi.apiReachability st !! "data.texas.gov" /\
    Multi.datasets st' = Multi.datasets st.
Proof.
  intros fetchJSON_resource https_get st. unfold Multi.measureAPIReachability, Multi.measure_sources.
  destruct (fold_left _ _ _) as [s' [r t]] eqn:Hf. cbn [fst].
  destruct (PipelineFacts.measure_sources_frame (fun _ => inr []) fetchJSON_resource https_get
              (fun _ => inr []) _ _ _ (fun src H => H) _ _ Hf)
    as (Hd & _ & Hr & _ & _).
  split; [| split; assumption].
  intros src config Hc Hne.
  rewrite (measure_sources_table https_get _ _ _ _ _ src config Hf Hc Hne); [reflexivity |].
  left. clear -Hc. revert Hc. generalize Multi.TEXAS_DATA_SOURCES.
  induction l as [|[k v] l IH]; simpl; [discriminate |].
  destruct (String.eqb_spec k src); [now left | intros H; right; now apply IH].
Qed.

End MeasureFacts.

(** ** Averages and rates *)

Module AverageFacts.
Import JS Net.






End AverageFacts.

(** ** More on the classifier *)

Module CategoryFacts.
Import Buckets ClassifierSpec ClassifierFacts.
Local Open Scope string_scope.






Lemma filter_partition {A : Type} (cat_of : A -> category) (l : list A) :
  (length (List.filter (fun x => category_eqb (cat_of x) Law) l) +
   length (List.filter (fun x => category_eqb (cat_of x) News) l) +
   length (List.filter (fun x => category_eqb (cat_of x) Attorney) l))%nat = length l.
Proof.
  induction l as [|x l IH]; simpl; [reflexivity |].
  destruct (cat_of x); simpl; lia.
Qed.

Lemma filter_sublist {A : Type} (p : A -> bool) (l : list A) : sublist (List.filter p l) l.
Proof.
  induction l as [|x l IH]; simpl; [constructor |].
  destruct (p x); [now apply sublist_skip | now apply sublist_cons].
Qed.

(** X13.  In both crawlers the three buckets split the legal datasets:
    their sizes add up to the number of legal datasets, each bucket lists
    its records in the order of the legal datasets, and the legal
    datasets are listed in the order of the datasets. *)
Theorem buckets_split_the_legal_datasets :
  (forall st : Single.TexasDataCrawler,
      let st' := Single.filterLegalDatasets st in
      (length (LAW_VERIFICATION (Single.categorized st')) +
       length (NEWS (Single.categorized st')) +
       length (ATTORNEY_RESOURCE (Single.categorized st')))%nat =
        length (Single.legalDatasets st') /\
      (forall cat, sublist (bucket (Single.categorized st') cat) (Single.legalDatasets st')) /\
      sublist (Single.legalDatasets st') (Single.datasets st)) /\
  (forall st : Multi.TexasMultiSourceCrawler,
      let st' := Multi.filterLegalDatasets st in
      (length (LAW_VERIFICATION (Multi.categorized st')) +
       length (NEWS (Multi.categorized st')) +
       length (ATTORNEY_RESOURCE (Multi.categorized st')))%nat =
        length (Multi.legalDatasets st') /\
      (forall cat, sublist (bucket (Multi.categorized st') cat) (Multi.legalDatasets st')) /\
      sublist (Multi.legalDatasets st') (Multi.allDatasets st)).
Proof.
  split; intros st; cbv zeta.
  - unfold Single.filterLegalDatasets.
    cbn [Single.categorized Single.legalDatasets].
    split; [| split].
    + change (LAW_VERIFICATION ?c) with (bucket c Law).
      change (NEWS ?c) with (bucket c News).
      change (ATTORNEY_RESOURCE ?c) with (bucket c Attorney).
      rewrite !forEach_push_bucket. apply filter_partition.
    + intros cat. rewrite forEach_push_bucket. apply filter_sublist.
    + apply filter_sublist.
  - unfold Multi.filterLegalDatasets.
    cbn [Multi.categorized Multi.legalDatasets].
    split; [| split].
    + change (LAW_VERIFICATION ?c) with (bucket c Law).
      change (NEWS ?c) with (bucket c News).
      change (ATTORNEY_RESOURCE ?c) with (bucket c Attorney).
      rewrite !forEach_push_bucket. apply filter_partition.
    + intros cat. rewrite forEach_push_bucket. apply filter_sublist.
    + apply filter_sublist.
Qed.

End CategoryFacts.

(** ** Scraped links *)

Module ScrapeFacts.
Import JS Net Buckets ClassifierSpec.
Local Open Scope string_scope.

Lemma get_key_set_key_eq {A : Type} (key : string) (v : A) (entries : list (string * A)) :
  Multi.get_key key (Multi.set_key key v entries) = Some v.
Proof.
  induction entries as [|[k w] entries IH]; simpl.
  - now rewrite String.eqb_refl.
  - destruct (String.eqb k key) eqn:E; simpl; now rewrite E.
Qed.

(** X14.  [crawlGeneric] on a configured source always writes the outcome
    of its probe in the reachability table.  When the source is not
    reachable or no browser is attached it returns no record and leaves
    the datasets alone.  Every record it returns is a scraped link of
    that source without id, whose lower-cased text holds one of the
    keywords of the source, and the records it returns are the ones it
    stores for the source. *)
Theorem crawlGeneric_keeps_keyword_links :
  forall (https_get : string -> http_event)
         (browser_links : string -> fetched (list Multi.link))
         (st : Multi.TexasMultiSourceCrawler) (source : string)
         (config : Multi.source_config),
    Multi.get_key source Multi.TEXAS_DATA_SOURCES = Some config ->
    exists st' found,
      Multi.crawlGeneric https_get browser_links st source = inr (st', found) /\
      Multi.apiReachability st' !! source =
        Some (Multi.on_event (https_get (Multi.baseUrl config))) /\
      (Multi.on_event (https_get (Multi.baseUrl config)) = false \/ Multi.browser st = false ->
       found = [] /\ Multi.datasets st' = Multi.datasets st) /\
      (found <> [] -> Multi.get_key source (Multi.datasets st') = Some found) /\
      (forall ds, In ds found ->
                  Multi.id ds = None /\ Multi.source ds = source /\
                  Multi.sourceType ds = "scraper" /\
                  Multi.description ds = "Scraped from " ++ Multi.src_description config /\
                  exists kw, In kw (Multi.src_legalKeywords config) /\
                             Spec.occurs kw (Text.toLowerCase (Multi.name ds))).
Proof.
  intros https_get browser_links st source config Hc.
  unfold Multi.crawlGeneric. rewrite Hc.
  change (Multi.await_checkReachability https_get (Multi.baseUrl config))
    with (Multi.on_event (https_get (Multi.baseUrl config))).
  destruct (Multi.on_event (https_get (Multi.baseUrl config))) eqn:Hr; cbn [negb].
  2:{ do 2 eexists. split; [reflexivity |]. simpl. rewrite lookup_insert_eq.
      repeat split; try tauto; try congruence. }
  cbn [Multi.browser Multi.set_reachability].
  destruct (Multi.browser st) eqn:Hb; cbn [negb].
  2:{ do 2 eexists. split; [reflexivity |]. simpl. rewrite lookup_insert_eq.
      repeat split; try tauto; try congruence. }
  destruct (browser_links source) as [e | parsed].
  { do 2 eexists. split; [reflexivity |]. simpl. rewrite lookup_insert_eq.
    split; [reflexivity |]. split; [intros [H | H]; discriminate |].
    split; [congruence | intros ds []]. }
  do 2 eexists. split; [reflexivity |]. simpl. rewrite lookup_insert_eq.
  split; [reflexivity |]. split; [intros [H | H]; discriminate |].
  split; [intros _; apply get_key_set_key_eq |].
  intros ds Hin. apply in_map_iff in Hin as (l & <- & Hl).
  apply filter_In in Hl as [_ Hkw]. simpl. repeat split.
  apply existsb_exists in Hkw as (kw & Hin & Hinc).
  exists kw. split; [exact Hin | now apply TextFacts.includes_iff].
Qed.

Lemma crawlGeneric_keeps_keyword_links_witness :
  exists st' found,
    Multi.crawlGeneric (fun _ => Response 200)
      (fun _ => inr [MoreSamples.contact_link;
                     {| Multi.text := "Penal Code"; Multi.href := "https://statutes.capitol.texas.gov/pe" |}])
      {| Multi.datasets := []; Multi.legalDatasets := []; Multi.categorized := Buckets.empty;
         Multi.browser := true; Multi.qualityScores := []; Multi.apiReachability := ∅ |}
      "statutes.capitol.texas.gov" = inr (st', found) /\
    length found = 1%nat.
Proof.
  destruct (crawlGeneric_keeps_keyword_links (fun _ => Response 200)
      (fun _ => inr [MoreSamples.contact_link;
                     {| Multi.text := "Penal Code"; Multi.href := "https://statutes.capitol.texas.gov/pe" |}])
      {| Multi.datasets := []; Multi.legalDatasets := []; Multi.categorized := Buckets.empty;
         Multi.browser := true; Multi.qualityScores := []; Multi.apiReachability := ∅ |}
      "statutes.capitol.texas.gov" MoreSamples.statutes_config eq_refl)
    as (st' & found & H & _).
  exists st', found. split; [exact H |].
  vm_compute in H. injection H as _ <-. reflexivity.
Defined.

Lemma toLowerCase_app (a b : string) :
  Text.toLowerCase (a ++ b) = Text.toLowerCase a ++ Text.toLowerCase b.
Proof.
  induction a as [|c a IH]; [reflexivity |].
  rewrite TextFacts.append_cons. cbn [Text.toLowerCase].
  rewrite TextFacts.append_cons. now rewrite IH.
Qed.





(** The sources of the table whose description holds a relevance keyword. *)
Lemma sources_relevant_by_description :
  map fst (List.filter
             (fun entry => existsb (Text.includes
                                      (Text.toLowerCase (Multi.src_description (snd entry))))
                                   Multi.legalKeywords)
             Multi.TEXAS_DATA_SOURCES) =
  [ "statutes.capitol.texas.gov"; "www.texasattorneygeneral.gov"; "sll.texas.gov";
    "efiletexas.gov"; "www.bellcountytx.com" ].
Proof. vm_compute. reflexivity. Qed.

End ScrapeFacts.

(** ** The reported rate *)

Module RateFacts.
Import ReachabilityFacts.

Lemma percentage_range (reachable total : Z) :
  0 < total -> 0 <= reachable <= total ->
  (0 <= inject_Z reachable / inject_Z total * inject_Z 100 <= inject_Z 100)%Q.
Proof.
  intros Ht Hr.
  assert (Hq : (0 < inject_Z total)%Q) by (rewrite <- (Zlt_Qlt 0); exact Ht).
  assert (H0 : (0 <= inject_Z reachable / inject_Z total)%Q).
  { apply Qle_shift_div_l; [exact Hq |]. rewrite Qmult_0_l. rewrite <- (Zle_Qle 0). lia. }
  assert (H1 : (inject_Z reachable / inject_Z total <= 1)%Q).
  { apply Qle_shift_div_r; [exact Hq |]. rewrite Qmult_1_l. rewrite <- Zle_Qle. lia. }
  set (x := (inject_Z reachable / inject_Z total)%Q) in *.
  change (inject_Z 100) with 100%Q. split; lra.
Qed.

(** X16.  For a sample that is not empty both crawlers report the
    percentage of reachable probes rounded to one decimal, half up, as a
    text with exactly one digit after the point; the number shown lies
    between 0.0 and 100.0. *)
Theorem rate_is_the_rounded_percentage :
  forall reachable total : Z,
    0 < total -> 0 <= reachable <= total ->
    exists n : Z,
      0 <= n <= 1000 /\
      Spec.rounded_to_tenths (inject_Z reachable / inject_Z total * inject_Z 100) n /\
      Single.rate_of reachable total =
        (Text.show_Z (n / 10) ++ "." ++ Text.show_Z (n mod 10))%string /\
      Multi.rate_of reachable total =
        Multi.RateText (Text.show_Z (n / 10) ++ "." ++ Text.show_Z (n mod 10))%string.
Proof.
  intros reachable total Ht Hr.
  set (q := (inject_Z reachable / inject_Z total * inject_Z 100)%Q).
  assert (Hround : Spec.rounded_to_tenths q (Number.tenths q)) by apply tenths_rounds.
  assert (Heq : Number.tenths (Qred (Qred (inject_Z reachable / inject_Z total) * inject_Z 100)) =
                Number.tenths q).
  { apply tenths_proper. subst q. now rewrite !Qred_correct. }
  exists (Number.tenths q). split; [| split; [exact Hround | split]].
  - destruct Hround as [Hlo Hhi].
    pose proof (percentage_range reachable total Ht Hr) as [Hq0 Hq1]. fold q in Hq0, Hq1.
    change (inject_Z 100) with 100%Q in Hq1. change (inject_Z 10) with 10%Q in Hlo, Hhi.
    split.
    + assert (H : (inject_Z (-1) < inject_Z (Number.tenths q))%Q).
      { change (inject_Z (-1)) with (-1)%Q. lra. }
      rewrite <- Zlt_Qlt in H. lia.
    + assert (H : (inject_Z (Number.tenths q) < inject_Z 1001)%Q).
      { change (inject_Z 1001) with 1001%Q. lra. }
      rewrite <- Zlt_Qlt in H. lia.
  - unfold Single.rate_of, Number.div, Number.scale, Number.toFixed1.
    replace (total =? 0) with false by (symmetry; apply Z.eqb_neq; lia).
    now rewrite Heq.
  - unfold Multi.rate_of, Number.div, Number.scale, Number.toFixed1.
    replace (0 <? total) with true by (symmetry; apply Z.ltb_lt; lia).
    replace (total =? 0) with false by (symmetry; apply Z.eqb_neq; lia).
    now rewrite Heq.
Qed.

(** One probe of three succeeded. *)
Lemma rate_is_the_rounded_percentage_witness :
  exists n : Z,
    0 <= n <= 1000 /\
    Spec.rounded_to_tenths (inject_Z 1 / inject_Z 3 * inject_Z 100) n /\
    Single.rate_of 1 3 = (Text.show_Z (n / 10) ++ "." ++ Text.show_Z (n mod 10))%string /\
    Multi.rate_of 1 3 =
      Multi.RateText (Text.show_Z (n / 10) ++ "." ++ Text.show_Z (n mod 10))%string.
Proof. apply (rate_is_the_rounded_percentage 1 3); lia. Defined.

End RateFacts.

(** ** The two crawlers side by side *)

Module CompareFacts.
Import JS Net Buckets.
Local Open Scope string_scope.

Lemma occurs_before (kw text after : string) :
  Spec.occurs kw text -> Spec.occurs kw (text ++ after).
Proof.
  intros (pre & suf & ->). exists pre, (suf ++ after).
  now rewrite !CSVFacts.append_assoc.
Qed.

Lemma keywords_extended : forall kw, In kw Single.legalKeywords -> In kw Multi.legalKeywords.
Proof.
  intros kw H. simpl in H. simpl.
  repeat (destruct H as [<- | H]; [tauto |]). contradiction.
Qed.

(** X17.  The keyword list of the multi-source crawler extends the one of
    the single-source crawler, and both filters read the name and the
    description: a record with a keyword of the single-source list in its
    lower-cased name and description is kept by both crawlers. *)
Theorem keyword_in_name_passes_both_filters :
  forall (s : Single.dataset) (m : Multi.dataset) (kw : string),
    Single.name s = Multi.name m -> Single.description s = Multi.description m ->
    In kw Single.legalKeywords ->
    Spec.occurs kw (Spec.category_text (Multi.name m) (Multi.description m)) ->
    Single.isLegal s = true /\ Multi.isLegal m = true.
Proof.
  intros s m kw Hn Hd Hin Hocc. split.
  - unfold Single.isLegal. apply existsb_exists. exists kw. split; [exact Hin |].
    apply TextFacts.includes_iff. unfold Single.filter_text. rewrite Hn, Hd.
    replace (Multi.name m ++ " " ++ Multi.description m ++ " " ++ Single.category s ++ " " ++
             Text.join " " (Single.tags s))
      with ((Multi.name m ++ " " ++ Multi.description m) ++
            " " ++ Single.category s ++ " " ++ Text.join " " (Single.tags s))
      by (now rewrite !CSVFacts.append_assoc).
    rewrite ScrapeFacts.toLowerCase_app. now apply occurs_before.
  - unfold Multi.isLegal. apply existsb_exists. exists kw.
    split; [now apply keywords_extended |]. now apply TextFacts.includes_iff.
Qed.

Lemma keyword_in_name_passes_both_filters_witness :
  Single.isLegal Samples.court_record = true /\ Multi.isLegal MoreSamples.court_link = true.
Proof.
  apply (keyword_in_name_passes_both_filters Samples.court_record MoreSamples.court_link "court");
    try reflexivity.
  - simpl. tauto.
  - exists EmptyString, " case filing ". reflexivity.
Defined.

Lemma length_append (a b : string) :
  String.length (a ++ b) = (String.length a + String.length b)%nat.
Proof.
  induction a as [|c a IH]; [reflexivity |].
  rewrite TextFacts.append_cons. simpl. now rewrite IH.
Qed.

(** X18.  A listing item that has none of the optional attributes gets
    the base score of 50 in both crawlers, and so does every scraped
    link of a source whose description has at most 87 characters (all
    the sources of the table): a scraped record has no counts and no
    tags, and its description is too short for a bonus. *)
Theorem records_without_attributes_score_fifty :
  (forall (d : item) (source : string),
      item_description d = None -> item_tags d = None ->
      item_viewCount d = None -> item_downloadCount d = None ->
      Single.quality (Single.of_item d) = 50 /\
      Multi.quality (Multi.of_item source d) = 50) /\
  (forall (source : string) (config : Multi.source_config) (l : Multi.link),
      (String.length (Multi.src_description config) <= 87)%nat ->
      Multi.quality (Multi.of_link source config l) = 50) /\
  forallb (fun entry => (String.length (Multi.src_description (snd entry)) <=? 87)%nat)
          Multi.TEXAS_DATA_SOURCES = true.
Proof.
  split; [| split].
  - intros d source Hd Ht Hv Hc. split.
    + rewrite ScoreFacts.single_formula. simpl. rewrite Hd, Ht, Hv, Hc. reflexivity.
    + rewrite ScoreFacts.multi_formula. simpl. rewrite Hd, Ht, Hv, Hc. reflexivity.
  - intros source config l Hlen. rewrite ScoreFacts.multi_formula. simpl.
    unfold Spec.quality_score, Spec.bonus. unfold Text.length.
    rewrite length_append. simpl String.length.
    replace (100 <? _)%Z with false by (symmetry; apply Z.ltb_ge; lia).
    replace (300 <? _)%Z with false by (symmetry; apply Z.ltb_ge; lia).
    reflexivity.
  - vm_compute. reflexivity.
Qed.

Lemma records_without_attributes_score_fifty_witness :
  Multi.quality (Multi.of_link "statutes.capitol.texas.gov" MoreSamples.statutes_config
                               MoreSamples.contact_link) = 50.
Proof.
  apply (proj1 (proj2 records_without_attributes_score_fifty)). simpl. lia.
Defined.

End CompareFacts.
